(** * Forklift: the selection engine and the clone orchestration

    A shallow embedding of the Go program (package [main], package
    [harvester], package [forge]) and the properties of its interactive
    selection language and of its per-item clone loop.

    Conventions of the embedding.
    - A Go [string] is a [string] of bytes.  The text handled here (menu
      input, repository names, language names) is taken to be ASCII:
      [strings.ToLower] maps ['A'..'Z'] and [strings.TrimSpace] strips the six
      ASCII white-space bytes; bytes above 127 are left alone.
    - A Go [int] is a [Z]; the only integers computed are positions in a
      slice, far from the 64-bit bounds, and [strconv.Atoi] reports a value
      outside the 64-bit range as an error, as the library does.
    - A slice is a [list]; [nil] is the empty list.
    - An [error] is its text: [option string], [None] for [nil]. *)

From Stdlib Require Import String Ascii List ZArith Bool Lia Arith.
From Stdlib Require Import DecimalString.
Import ListNotations.

Local Open Scope string_scope.
Local Open Scope list_scope.

Infix "+++" := String.append (right associativity, at level 60).

(** ** Package [strings] *)

Module strings.

Definition lowerByte (c : ascii) : ascii :=
  let n := nat_of_ascii c in
  if (65 <=? n)%nat && (n <=? 90)%nat then ascii_of_nat (n + 32) else c.

Fixpoint ToLower (s : string) : string :=
  match s with
  | EmptyString => EmptyString
  | String c s' => String (lowerByte c) (ToLower s')
  end.

(** '\t', '\n', '\v', '\f', '\r' and ' '. *)
Definition isSpace (c : ascii) : bool :=
  let n := nat_of_ascii c in
  ((9 <=? n)%nat && (n <=? 13)%nat) || (n =? 32)%nat.

Fixpoint TrimLeft (s : string) : string :=
  match s with
  | EmptyString => EmptyString
  | String c s' => if isSpace c then TrimLeft s' else s
  end.

Fixpoint TrimRight (s : string) : string :=
  match s with
  | EmptyString => EmptyString
  | String c s' =>
      match TrimRight s' with
      | EmptyString => if isSpace c then EmptyString else String c EmptyString
      | t => String c t
      end
  end.

Definition TrimSpace (s : string) : string := TrimRight (TrimLeft s).

Fixpoint Contains (s substr : string) : bool :=
  if String.prefix substr s then true
  else match s with
       | EmptyString => false
       | String _ s' => Contains s' substr
       end.

(** [Split s sep] for a non-empty separator (the program splits on [","]
    and on ["-"]).  [skip] counts the bytes of a separator still to be
    passed over, [cur] holds the bytes of the current piece, last first. *)
Fixpoint revString (acc s : string) : string :=
  match s with
  | EmptyString => acc
  | String c s' => revString (String c acc) s'
  end.

Fixpoint splitFrom (sep : string) (skip : nat) (cur : string) (s : string)
  : list string :=
  match s with
  | EmptyString => [revString EmptyString cur]
  | String c s' =>
      match skip with
      | S k => splitFrom sep k cur s'
      | O =>
          if String.prefix sep s
          then revString EmptyString cur
                 :: splitFrom sep (String.length sep - 1) EmptyString s'
          else splitFrom sep 0 (String c cur) s'
      end
  end.

Definition Split (s sep : string) : list string :=
  splitFrom sep 0 EmptyString s.

End strings.

(** ** Package [strconv] *)

Module strconv.

Definition digit (c : ascii) : option Z :=
  let n := nat_of_ascii c in
  if (48 <=? n)%nat && (n <=? 57)%nat then Some (Z.of_nat (n - 48)) else None.

Fixpoint digits (acc : Z) (s : string) : option Z :=
  match s with
  | EmptyString => Some acc
  | String c s' =>
      match digit c with
      | Some d => digits (acc * 10 + d) s'
      | None => None
      end
  end.

Definition inInt (n : Z) : bool :=
  ((- 2 ^ 63 <=? n) && (n <=? 2 ^ 63 - 1))%Z.

(** Base 10, an optional sign, at least one digit, no other byte; a value
    that does not fit the 64-bit [int] is an error. *)
Definition Atoi (s : string) : option Z :=
  match s with
  | EmptyString => None
  | String c s' =>
      let signed := Ascii.eqb c "-" || Ascii.eqb c "+" in
      let body := if signed then s' else s in
      match body with
      | EmptyString => None
      | _ =>
          match digits 0 body with
          | Some n =>
              let v := if Ascii.eqb c "-" then (- n)%Z else n in
              if inInt v then Some v else None
          | None => None
          end
      end
  end.

End strconv.

(** ** Package [forge]: the repository record *)

Module forge.

Record Repository : Type := mkRepository {
  Name : string;
  Description : string;
  CloneURL : string;
  SSHURL : string;
  Language : string;
  Stars : Z;
  Size : Z
}.

End forge.

Import forge.

Definition len {A : Type} (l : list A) : Z := Z.of_nat (List.length l).

(** ** Package [main]: the selection language *)

(** [for i := start; i <= end; i++ { indices = append(indices, i-1) }],
    run for its [n] remaining iterations. *)
Fixpoint rangeLoop (n : nat) (i : Z) (indices : list Z) : list Z :=
  match n with
  | O => indices
  | S n' => rangeLoop n' (i + 1)%Z (indices ++ [(i - 1)%Z])
  end.

(** The body of the loop over the comma-separated parts. *)
Definition parsePart (maxLen : Z) (indices : list Z) (part : string) : list Z :=
  let part := strings.TrimSpace part in
  if strings.Contains part "-" then
    let rangeParts := strings.Split part "-" in
    if (List.length rangeParts =? 2)%nat then
      match strconv.Atoi (strings.TrimSpace (nth 0 rangeParts "")),
            strconv.Atoi (strings.TrimSpace (nth 1 rangeParts "")) with
      | Some start, Some end_ =>
          if ((0 <? start) && (0 <? end_) &&
              (start <=? maxLen) && (end_ <=? maxLen) &&
              (start <=? end_))%Z
          then rangeLoop (Z.to_nat (end_ - start + 1)) start indices
          else indices
      | _, _ => indices
      end
    else indices
  else
    match strconv.Atoi part with
    | Some num =>
        if ((0 <? num) && (num <=? maxLen))%Z
        then indices ++ [(num - 1)%Z]
        else indices
    | None => indices
    end.

Definition parseSelection (input : string) (maxLen : Z) : list Z :=
  fold_left (parsePart maxLen) (strings.Split input ",") [].

(** [filterByLanguage], the command-line pre-filter. *)
Definition filterByLanguage (repos : list Repository) (language : string)
  : list Repository :=
  let targetLang := strings.ToLower language in
  fold_left
    (fun filtered repo =>
       if String.eqb (strings.ToLower (Language repo)) targetLang
       then filtered ++ [repo] else filtered)
    repos [].

(** [tryLanguageFilter]: the matches, or [nil] when there is none. *)
Definition tryLanguageFilter (repos : list Repository) (input : string)
  : list Repository :=
  let inputLower := strings.ToLower input in
  let matches :=
    fold_left
      (fun matches repo =>
         if String.eqb (strings.ToLower (Language repo)) inputLower
         then matches ++ [repo] else matches)
      repos [] in
  if (0 <? len matches)%Z then matches else [].

Definition excludeKeywords : list string :=
  ["docs"; "documentation"; "website"; "blog"; "awesome-"].

Definition excludeLanguages : list string := ["html"; "css"].

(** The two inner loops of [selectDevRepositories]; each leaves at its first
    hit with [isDevRepo] set to [false]. *)
Fixpoint keywordLoop (lowerName lowerDesc : string) (isDevRepo : bool)
  (keywords : list string) : bool :=
  match keywords with
  | [] => isDevRepo
  | keyword :: rest =>
      if strings.Contains lowerName keyword || strings.Contains lowerDesc keyword
      then false
      else keywordLoop lowerName lowerDesc isDevRepo rest
  end.

Fixpoint languageLoop (lowerLang : string) (isDevRepo : bool)
  (langs : list string) : bool :=
  match langs with
  | [] => isDevRepo
  | excludeLang :: rest =>
      if String.eqb lowerLang excludeLang
      then false
      else languageLoop lowerLang isDevRepo rest
  end.

Definition isDevRepo (repo : Repository) : bool :=
  let lowerName := strings.ToLower (Name repo) in
  let lowerDesc := strings.ToLower (Description repo) in
  let lowerLang := strings.ToLower (Language repo) in
  let isDevRepo := keywordLoop lowerName lowerDesc true excludeKeywords in
  languageLoop lowerLang isDevRepo excludeLanguages.

Definition selectDevRepositories (repos : list Repository) : list Repository :=
  fold_left
    (fun devRepos repo => if isDevRepo repo then devRepos ++ [repo] else devRepos)
    repos [].

(** The scan of [selected] for an item of the same name. *)
Fixpoint alreadySelected (selected : list Repository) (name : string) : bool :=
  match selected with
  | [] => false
  | s :: rest => if String.eqb (Name s) name then true else alreadySelected rest name
  end.

(** The body of the loop over the parsed indices. *)
Definition addIndex (repos selected : list Repository) (idx : Z)
  : list Repository :=
  if ((0 <=? idx) && (idx <? len repos))%Z then
    match nth_error repos (Z.to_nat idx) with
    | Some r =>
        if alreadySelected selected (Name r) then selected else selected ++ [r]
    | None => selected
    end
  else selected.

Definition addIndices (repos selected : list Repository) (indices : list Z)
  : list Repository :=
  fold_left (addIndex repos) indices selected.

(** One turn of the prompt loop of [selectRepositories] on the line read. *)
Inductive Step : Type :=
| Finish (result : list Repository)
| Restart (langFiltered : list Repository)
| Continue (selected : list Repository).

Definition loopBody (repos selected : list Repository) (line : string) : Step :=
  let input := strings.TrimSpace line in
  if String.eqb input "" then Finish selected
  else if String.eqb input "all" then Finish repos
  else if String.eqb input "dev" then Finish (selectDevRepositories repos)
  else
    match tryLanguageFilter repos input with
    | (_ :: _) as langFiltered => Restart langFiltered
    | [] =>
        Continue (addIndices repos selected
                    (parseSelection input (len repos)))
    end.

(** [selectRepositories] on the lines standard input delivers, one per
    [ReadString]: the program is interactive and reads a terminal.  At the end
    of the input [ReadString] returns the empty string, which ends the loop.
    The listing and the messages printed on the way are not part of the
    result and are left out. *)
Fixpoint selectLoop (repos selected : list Repository) (stdin : list string)
  : list Repository :=
  match stdin with
  | [] => selected
  | line :: rest =>
      match loopBody repos selected line with
      | Finish result => result
      | Restart langFiltered => selectLoop langFiltered [] rest
      | Continue selected' => selectLoop repos selected' rest
      end
  end.

Definition selectRepositories (repos : list Repository) (stdin : list string)
  : list Repository :=
  selectLoop repos [] stdin.

(** A line as the terminal hands it over, with its newline. *)
Definition ln (s : string) : string := s +++ String (ascii_of_nat 10) "".

(** The scenario of the specification: three repositories [A], [B], [C]. *)
Definition repoA : Repository :=
  mkRepository "A" "" "https://github.com/o/A.git" "git@github.com:o/A.git" "Go" 0 0.
Definition repoB : Repository :=
  mkRepository "B" "" "https://github.com/o/B.git" "git@github.com:o/B.git" "HTML" 0 0.
Definition repoC : Repository :=
  mkRepository "C" "" "https://github.com/o/C.git" "git@github.com:o/C.git" "Go" 0 0.
Definition scenario : list Repository := [repoA; repoB; repoC].

(** ** The outside world

    The file system, the network and the git library are collaborators
    of the program.  Each call to one of them takes the world as it is and
    gives back a result and the world after the call. *)

Inductive result (A : Type) : Type :=
| Ok (a : A)
| Err (text : string).
Arguments Ok {A} a.
Arguments Err {A} text.

Class Collaborators : Type := {
  World : Type;
  GitRepository : Type;
  GitWorktree : Type;
  GitSubmodule : Type;
  (** [os.Stat(path)]: [true] when it returns no error. *)
  os_Stat : string -> World -> bool;
  (** [git.PlainClone(path, false, &git.CloneOptions{URL: url, ...})]. *)
  git_PlainClone : string -> string -> World -> result GitRepository * World;
  (** [repo.Worktree()]. *)
  repo_Worktree : GitRepository -> World -> result GitWorktree * World;
  (** [worktree.Submodules()]. *)
  worktree_Submodules : GitWorktree -> World -> result (list GitSubmodule) * World;
  (** [submodule.Config().Name]. *)
  submodule_Name : GitSubmodule -> string;
  (** [submodule.Update(&git.SubmoduleUpdateOptions{...})]. *)
  submodule_Update : GitSubmodule -> World -> option string * World;
  (** [filepath.Join(dir, name)]. *)
  filepath_Join : string -> string -> string
}.

(** What the program does to the world, in the order it does it. *)
Inductive Event : Type :=
| EvStat (path : string)
| EvPlainClone (path url : string)
| EvWorktree
| EvSubmodules
| EvSubmoduleUpdate (name : string)
| EvPrint (text : string).

Section Effects.
Context {X : Collaborators}.

(** A computation: from the world to a value, the world after, and the
    events of the run. *)
Definition M (A : Type) : Type := World -> A * World * list Event.

Definition ret {A : Type} (a : A) : M A := fun w => (a, w, []).

Definition bind {A B : Type} (m : M A) (k : A -> M B) : M B :=
  fun w =>
    let '(a, w1, t1) := m w in
    let '(b, w2, t2) := k a w1 in
    (b, w2, t1 ++ t2).

Definition emit (e : Event) : M unit := fun w => (tt, w, [e]).

(** A call to a collaborator, recorded as the event [e]. *)
Definition call {A : Type} (e : Event) (f : World -> A * World) : M A :=
  fun w => let '(a, w1) := f w in (a, w1, [e]).

Definition Printf (text : string) : M unit := emit (EvPrint text).

Definition value {A : Type} (r : A * World * list Event) : A := fst (fst r).
Definition after {A : Type} (r : A * World * list Event) : World := snd (fst r).
Definition events {A : Type} (r : A * World * list Event) : list Event := snd r.
End Effects.

Notation "x <- m ;; k" := (bind m (fun x => k))
  (at level 61, m at next level, right associativity).
Notation "m ;;; k" := (bind m (fun _ => k))
  (at level 61, right associativity).

Definition nl : string := String (ascii_of_nat 10) "".

(** [%d]. *)
Definition fmt_d (n : Z) : string := NilZero.string_of_int (Z.to_int n).

(** ** Package [harvester] *)

Module harvester.
Section Harvester.
Context {X : Collaborators}.

Record Harvester : Type := New { recursive : bool }.

(** The loop of [cultivateSubmodules] over the submodules. *)
Fixpoint updateLoop (submodules : list GitSubmodule) : M (option string) :=
  match submodules with
  | [] => ret None
  | submodule :: rest =>
      Printf ("    - " +++ submodule_Name submodule +++ nl) ;;;
      err <- call (EvSubmoduleUpdate (submodule_Name submodule))
                  (submodule_Update submodule) ;;
      match err with
      | Some e =>
          ret (Some ("failed to cultivate submodule "
                       +++ submodule_Name submodule +++ ": " +++ e))
      | None => updateLoop rest
      end
  end.

Definition cultivateSubmodules (h : Harvester) (repo : GitRepository)
  (repoPath : string) : M (option string) :=
  wt <- call EvWorktree (repo_Worktree repo) ;;
  match wt with
  | Err e => ret (Some e)
  | Ok worktree =>
      sm <- call EvSubmodules (worktree_Submodules worktree) ;;
      match sm with
      | Err e => ret (Some e)
      | Ok submodules =>
          if (len submodules =? 0)%Z then ret None
          else
            Printf ("  Cultivating " +++ fmt_d (len submodules)
                      +++ " submodule(s)..." +++ nl) ;;;
            updateLoop submodules
      end
  end.

Definition HarvestRepository (h : Harvester) (url path : string)
  : M (option string) :=
  exists_ <- call (EvStat path) (fun w => (os_Stat path w, w)) ;;
  if exists_ : bool then
    ret (Some ("directory " +++ path +++ " already exists"))
  else
    cloned <- call (EvPlainClone path url) (git_PlainClone path url) ;;
    match cloned with
    | Err e => ret (Some ("failed to harvest: " +++ e))
    | Ok repo =>
        (if recursive h then
           err <- cultivateSubmodules h repo path ;;
           match err with
           | Some e =>
               Printf ("  WARNING: failed to cultivate submodules: " +++ e +++ nl)
           | None => ret tt
           end
         else ret tt) ;;;
        ret None
    end.

End Harvester.
End harvester.

Import harvester.

(** ** Package [main]: the clone loop of [runForklift] *)

Section CloneLoop.
Context {X : Collaborators}.
Variable h : Harvester.
Variable useHTTPS : bool.
Variable destDir : string.

Definition header (i n : Z) (repo : Repository) : string :=
  nl +++ "[" +++ fmt_d (i + 1) +++ "/" +++ fmt_d n +++ "] Harvesting "
     +++ Name repo +++ " (" +++ Language repo +++ ")..." +++ nl.

(** The body of the loop, for the item [repo] at index [i] of [n]. *)
Definition harvestItem (i n : Z) (repo : Repository) : M unit :=
  Printf (header i n repo) ;;;
  let repoPath := filepath_Join destDir (Name repo) in
  let cloneURL := if useHTTPS then CloneURL repo else SSHURL repo in
  err <- HarvestRepository h cloneURL repoPath ;;
  match err with
  | Some e =>
      Printf ("  FAILED to harvest " +++ Name repo +++ ": " +++ e +++ nl) ;;;
      if negb useHTTPS && strings.Contains e "ssh" then
        Printf ("  SSH failed, trying HTTPS for " +++ Name repo +++ "..." +++ nl) ;;;
        retryErr <- HarvestRepository h (CloneURL repo) repoPath ;;
        match retryErr with
        | Some e' =>
            Printf ("  HTTPS also failed for " +++ Name repo +++ ": " +++ e' +++ nl)
        | None =>
            Printf ("  Successfully harvested " +++ Name repo +++ " via HTTPS" +++ nl)
        end
      else ret tt
  | None => Printf ("  Successfully harvested " +++ Name repo +++ nl)
  end.

(** [for i, repo := range selectedRepos], from index [i] on; [n] is
    [len(selectedRepos)]. *)
Fixpoint harvestFrom (i n : Z) (rest : list Repository) : M unit :=
  match rest with
  | [] => ret tt
  | repo :: rest' => harvestItem i n repo ;;; harvestFrom (i + 1) n rest'
  end.

Definition harvestLoop (selectedRepos : list Repository) : M unit :=
  harvestFrom 0 (len selectedRepos) selectedRepos.

End CloneLoop.

(** A small world for the examples: the paths that exist.  Cloning over
    SSH is refused, cloning over HTTPS creates the path, and every clone has
    one submodule whose update fails. *)
Definition demoWorld : Collaborators := {|
  World := list string;
  GitRepository := string;
  GitWorktree := string;
  GitSubmodule := string;
  os_Stat := fun path w => existsb (String.eqb path) w;
  git_PlainClone := fun path url w =>
    if String.prefix "git@" url
    then (Err "ssh: handshake failed: unable to authenticate", w)
    else (Ok path, path :: w);
  repo_Worktree := fun repo w => (Ok repo, w);
  worktree_Submodules := fun worktree w => (Ok ["vendor/lib"], w);
  submodule_Name := fun submodule => submodule;
  submodule_Update := fun submodule w => (Some "authentication required", w);
  filepath_Join := fun dir name => dir +++ "/" +++ name
|}.

(** Sample data for the examples. *)
Definition sample (name language : string) : Repository :=
  mkRepository name ""
    ("https://github.com/o/" +++ name +++ ".git")
    ("git@github.com:o/" +++ name +++ ".git")
    language 0 0.

Definition five : list Repository :=
  [sample "cli" "Go"; sample "site" "HTML"; sample "api" "Python";
   sample "lib" "Rust"; sample "tool" "Go"].

Definition devLanguageRepo : Repository := sample "notes" "Dev".

(** The tests of the program, as predicates on an item. *)
Definition keywordHit (r : Repository) (keyword : string) : bool :=
  strings.Contains (strings.ToLower (Name r)) keyword
  || strings.Contains (strings.ToLower (Description r)) keyword.

Definition languageIs (input : string) (r : Repository) : bool :=
  String.eqb (strings.ToLower (Language r)) (strings.ToLower input).

(** ** The specification's vocabulary *)

(** [s] and [t] are equal up to the case of letters. *)
Definition equalFold (s t : string) : Prop :=
  strings.ToLower s = strings.ToLower t.

(** [s] has a substring equal to [kw] up to the case of letters. *)
Definition containsFold (s kw : string) : Prop :=
  exists pre mid suf, s = pre +++ mid +++ suf /\ equalFold mid kw.

(** A candidate the [dev] command leaves out. *)
Definition excluded (r : Repository) : Prop :=
  (exists kw, In kw ["docs"; "documentation"; "website"; "blog"; "awesome-"] /\
              (containsFold (Name r) kw \/ containsFold (Description r) kw))
  \/ equalFold (Language r) "html"
  \/ equalFold (Language r) "css".

(** [Kept P l l']: [l'] holds exactly the items of [l] that satisfy [P], in
    the order of [l]. *)
Inductive Kept {A : Type} (P : A -> Prop) : list A -> list A -> Prop :=
| Kept_nil : Kept P [] []
| Kept_take x l l' : P x -> Kept P l l' -> Kept P (x :: l) (x :: l')
| Kept_drop x l l' : ~ P x -> Kept P l l' -> Kept P (x :: l) l'.

(** [narrowed] is drawn from [repos] and leaves at least one item out. *)
Definition StrictlyNarrower (narrowed repos : list Repository) : Prop :=
  incl narrowed repos /\ (List.length narrowed < List.length repos)%nat.

(** The states [(candidates, selected)] the prompt loop goes through when
    [selectRepositories] is called on [repos0]. *)
Inductive Reachable (repos0 : list Repository)
  : list Repository -> list Repository -> Prop :=
| Reachable_start : Reachable repos0 repos0 []
| Reachable_continue repos selected line selected' :
    Reachable repos0 repos selected ->
    loopBody repos selected line = Continue selected' ->
    Reachable repos0 repos selected'
| Reachable_restart repos selected line langFiltered :
    Reachable repos0 repos selected ->
    loopBody repos selected line = Restart langFiltered ->
    Reachable repos0 langFiltered [].

(** Readings of a trace: the paths probed, one per call of
    [HarvestRepository]; the URLs handed to the clone; the item headers. *)
Fixpoint statPaths (t : list Event) : list string :=
  match t with
  | [] => []
  | EvStat path :: t' => path :: statPaths t'
  | _ :: t' => statPaths t'
  end.

Fixpoint cloneURLs (t : list Event) : list string :=
  match t with
  | [] => []
  | EvPlainClone _ url :: t' => url :: cloneURLs t'
  | _ :: t' => cloneURLs t'
  end.

Definition isHeader (e : Event) : bool :=
  match e with
  | EvPrint text => String.prefix (nl +++ "[") text
  | _ => false
  end.

(** A stretch of trace with no probe, no clone and no item header. *)
Definition quiet (t : list Event) : Prop :=
  statPaths t = [] /\ cloneURLs t = [] /\ filter isHeader t = [].

(** The headers of the items of [rest], numbered from [i]. *)
Fixpoint headersFrom (i n : Z) (rest : list Repository) : list Event :=
  match rest with
  | [] => []
  | repo :: rest' => EvPrint (header i n repo) :: headersFrom (i + 1) n rest'
  end.

(** ** Package [main]: the listing and the language statistics *)

(** The description column of the listing printed by [selectRepositories]:
    a placeholder for an empty description, and at most 50 bytes. *)
Definition shownDescription (repo : Repository) : string :=
  let description := Description repo in
  let description :=
    if String.eqb description "" then "No description available"
    else description in
  if (50 <? Z.of_nat (String.length description))%Z
  then substring 0 47 description +++ "..."
  else description.

Definition getLanguageDisplay (language : string) : string :=
  if String.eqb language "" || String.eqb language "Unknown"
  then "Unknown" else language.

(** The counting loop of [showLanguageStats].  The map [langCount] is read
    as a function: a Go map with [int] values gives 0 at a key it does not
    hold, and its keys are the languages with a count of at least 1. *)
Definition statLanguage (repo : Repository) : string :=
  if String.eqb (Language repo) "" then "Unknown" else Language repo.

Definition countLanguage (langCount : string -> Z) (repo : Repository)
  : string -> Z :=
  let lang := statLanguage repo in
  fun key => if String.eqb key lang then (langCount key + 1)%Z else langCount key.

Definition langCount (repos : list Repository) : string -> Z :=
  fold_left countLanguage repos (fun _ => 0%Z).

(** ** The whole process

    Besides the world, a run of the program has its standard input, of
    which each [ReadString] takes the next line (the empty string at the end
    of the input), and it can end at once through [os.Exit].  The
    collaborators of [runForklift] that the harvester does not use: *)

Module github.

(** A repository as the go-github client returns it, read through its
    getters ([GetFork], [GetName], ...), which give the zero value for a field
    that is absent. *)
Record Repository : Type := mkRepository {
  Fork : bool;
  Name : string;
  Description : string;
  CloneURL : string;
  SSHURL : string;
  Language : string;
  StargazersCount : Z;
  Size : Z
}.

End github.

(** The result of running a command: [nil], an [*exec.ExitError] with its
    exit code, or another error. *)
Inductive RunResult : Type :=
| RunOk
| ExitError (code : Z)
| RunError (text : string).

Class System {X : Collaborators} : Type := {
  (** [os.UserHomeDir()], its error dropped: the empty string on failure. *)
  os_UserHomeDir : World -> string;
  (** [os.Getwd()], its error dropped. *)
  os_Getwd : World -> string;
  (** [exec.Command("ssh", "-T", "git@github.com").Run()]. *)
  ssh_T : World -> RunResult * World;
  (** [os.MkdirAll(path, 0755)]. *)
  os_MkdirAll : string -> World -> option string * World;
  (** [filepath.Abs(path)]. *)
  filepath_Abs : string -> World -> result string;
  (** [c.client.Repositories.List(ctx, owner, opt)] with [opt.Page = page],
      for the client made with [token]: the repositories of the page and
      [resp.NextPage], or the error. *)
  Repositories_List :
    string -> string -> Z -> World -> result (list github.Repository * Z) * World
}.

Inductive Action : Type :=
| Did (e : Event)
| ActList (owner : string) (page : Z)
| ActSsh
| ActMkdirAll (path : string)
| ActStderr (text : string).

Inductive Outcome (A : Type) : Type :=
| Done (a : A)
| Exit (code : Z)
| OutOfFuel.
Arguments Done {A} a.
Arguments Exit {A} code.
Arguments OutOfFuel {A}.

Section Process.
Context {X : Collaborators}.

(** A step of the process: from the input left and the world to an
    outcome, the input left, the world after, and what was done. *)
Definition Proc (A : Type) : Type :=
  list string -> World -> Outcome A * list string * World * list Action.

Definition retP {A : Type} (a : A) : Proc A :=
  fun stdin w => (Done a, stdin, w, []).

Definition bindP {A B : Type} (m : Proc A) (k : A -> Proc B) : Proc B :=
  fun stdin w =>
    match m stdin w with
    | (Done a, stdin1, w1, t1) =>
        let '(o, stdin2, w2, t2) := k a stdin1 w1 in (o, stdin2, w2, t1 ++ t2)
    | (Exit code, stdin1, w1, t1) => (Exit code, stdin1, w1, t1)
    | (OutOfFuel, stdin1, w1, t1) => (OutOfFuel, stdin1, w1, t1)
    end.

(** What the harvester and the clone loop do, as part of the process. *)
Definition lift {A : Type} (m : M A) : Proc A :=
  fun stdin w => let '(a, w1, t) := m w in (Done a, stdin, w1, map Did t).

(** A call to one of the collaborators above, recorded as [a]. *)
Definition act {A : Type} (a : Action) (f : World -> A * World) : Proc A :=
  fun stdin w => let '(x, w1) := f w in (Done x, stdin, w1, [a]).

(** [reader.ReadString('\n')], its error dropped. *)
Definition ReadString : Proc string :=
  fun stdin w =>
    match stdin with
    | [] => (Done "", [], w, [])
    | line :: rest => (Done line, rest, w, [])
    end.

Definition os_Exit {A : Type} (code : Z) : Proc A :=
  fun stdin w => (Exit code, stdin, w, []).

Definition fmt_Print (text : string) : Proc unit := lift (Printf text).
Definition fmt_Println (text : string) : Proc unit :=
  lift (Printf (text +++ nl)).
Definition Fprintf_Stderr (text : string) : Proc unit :=
  fun stdin w => (Done tt, stdin, w, [ActStderr text]).

Definition outcome {A : Type}
  (r : Outcome A * list string * World * list Action) : Outcome A :=
  fst (fst (fst r)).
Definition inputLeft {A : Type}
  (r : Outcome A * list string * World * list Action) : list string :=
  snd (fst (fst r)).
Definition worldAfter {A : Type}
  (r : Outcome A * list string * World * list Action) : World :=
  snd (fst r).
Definition actions {A : Type}
  (r : Outcome A * list string * World * list Action) : list Action :=
  snd r.
End Process.

Notation "x <-- m ;; k" := (bindP m (fun x => k))
  (at level 61, m at next level, right associativity).
Notation "m ;;;; k" := (bindP m (fun _ => k))
  (at level 61, right associativity).

(** ** Package [forge]: discovery *)

Section Discovery.
Context {X : Collaborators} {Y : System}.

(** [forge.Client]: the go-github client, known by the token it was made
    with; the empty token makes the client without authentication. *)
Record Client : Type := mkClient { accessToken : string }.

Definition NewClient (token : string) : Client := mkClient token.

(** The [Repository] appended for a repository that is no fork. *)
Definition toRepository (repo : github.Repository) : Repository :=
  let language := github.Language repo in
  let language := if String.eqb language "" then "Unknown" else language in
  forge.mkRepository (github.Name repo) (github.Description repo)
    (github.CloneURL repo) (github.SSHURL repo) language
    (github.StargazersCount repo) (github.Size repo).

(** The loop over the repositories of one page. *)
Definition appendPage (allRepos : list Repository)
  (repos : list github.Repository) : list Repository :=
  fold_left
    (fun allRepos repo =>
       if github.Fork repo then allRepos else allRepos ++ [toRepository repo])
    repos allRepos.

(** The loop over the pages, run for at most [fuel] pages. *)
Fixpoint discoverFrom (fuel : nat) (c : Client) (owner : string) (page : Z)
  (allRepos : list Repository) : Proc (result (list Repository)) :=
  match fuel with
  | O => fun stdin w => (OutOfFuel, stdin, w, [])
  | S fuel' =>
      listed <-- act (ActList owner page)
                     (Repositories_List (accessToken c) owner page) ;;
      match listed with
      | Err e => retP (Err e)
      | Ok (repos, nextPage) =>
          let allRepos := appendPage allRepos repos in
          if (nextPage =? 0)%Z then retP (Ok allRepos)
          else discoverFrom fuel' c owner nextPage allRepos
      end
  end.

Definition DiscoverRepositories (fuel : nat) (c : Client) (owner : string)
  : Proc (result (list Repository)) :=
  discoverFrom fuel c owner 0 [].

(** What the server hands over, page after page, while the listing goes
    on; and whether the listing ends within [fuel] pages. *)
Fixpoint served (fuel : nat) (c : Client) (owner : string) (page : Z)
  (w : World) : list github.Repository :=
  match fuel with
  | O => []
  | S fuel' =>
      match Repositories_List (accessToken c) owner page w with
      | (Err _, _) => []
      | (Ok (repos, nextPage), w1) =>
          repos ++ (if (nextPage =? 0)%Z then []
                    else served fuel' c owner nextPage w1)
      end
  end.

Fixpoint listingEnds (fuel : nat) (c : Client) (owner : string) (page : Z)
  (w : World) : bool :=
  match fuel with
  | O => false
  | S fuel' =>
      match Repositories_List (accessToken c) owner page w with
      | (Err _, _) => true
      | (Ok (_, nextPage), w1) =>
          if (nextPage =? 0)%Z then true
          else listingEnds fuel' c owner nextPage w1
      end
  end.

End Discovery.

(** ** Package [main]: the run *)

(** The command-line flags. *)
Module flag.
Record t : Type := mk {
  token : string;
  destination : string;
  recursive : bool;
  useHTTPS : bool;
  filterLang : string
}.
End flag.

Section Main.
Context {X : Collaborators} {Y : System}.

(** A look at the world that changes nothing and is not recorded. *)
Definition ask {A : Type} (f : World -> A) : Proc A :=
  fun stdin w => (Done (f w), stdin, w, []).

Definition testSSHConnection : Proc bool :=
  err <-- act ActSsh ssh_T ;;
  retP match err with
       | ExitError code => (code =? 1)%Z
       | RunOk => true
       | RunError _ => false
       end.

Definition keyFiles : list string := ["id_rsa"; "id_ed25519"; "id_ecdsa"].

(** The loop over the key files; it leaves at the first one found.  The
    result is [hasKey]. *)
Fixpoint keyLoop (sshDir : string) (keyFiles : list string) : Proc bool :=
  match keyFiles with
  | [] => retP false
  | keyFile :: rest =>
      found <-- lift (call (EvStat (filepath_Join sshDir keyFile))
                           (fun w => (os_Stat (filepath_Join sshDir keyFile) w, w))) ;;
      if found : bool then retP true else keyLoop sshDir rest
  end.

Definition checkSSHSetup : Proc unit :=
  homeDir <-- ask os_UserHomeDir ;;
  let sshDir := filepath_Join homeDir ".ssh" in
  hasKey <-- keyLoop sshDir keyFiles ;;
  if negb hasKey then
    fmt_Println "WARNING: No SSH keys found in ~/.ssh/" ;;;;
    fmt_Println "Consider setting up SSH keys for GitHub:" ;;;;
    fmt_Println "   https://docs.github.com/en/authentication/connecting-to-github-with-ssh" ;;;;
    fmt_Println "   Or use --https flag for read-only access" ;;;;
    fmt_Print (nl +++ "Continue anyway? (y/N): ") ;;;;
    response <-- ReadString ;;
    let response := strings.TrimSpace (strings.ToLower response) in
    if negb (String.eqb response "y") && negb (String.eqb response "yes") then
      fmt_Println "Exiting. Set up SSH keys or use --https flag." ;;;;
      os_Exit 1
    else retP tt
  else
    connected <-- testSSHConnection ;;
    if connected : bool then
      fmt_Println "SSH connection to GitHub verified!"
    else
      fmt_Println "WARNING: SSH connection to GitHub failed." ;;;;
      fmt_Println "You may need to add your SSH key to GitHub or use --https flag" ;;;;
      fmt_Print (nl +++ "Continue anyway? (y/N): ") ;;;;
      response <-- ReadString ;;
      let response := strings.TrimSpace (strings.ToLower response) in
      if negb (String.eqb response "y") && negb (String.eqb response "yes") then
        fmt_Println "Exiting. Fix SSH setup or use --https flag." ;;;;
        os_Exit 1
      else retP tt.

(** One turn of the prompt loop of [getDestinationDirectory] on the line
    read: [Some] directory to return, or [None] to prompt again.  It reads
    nothing more. *)
Definition destinationTurn (line : string) (w : World)
  : option string * World * list Action :=
  let input := strings.TrimSpace line in
  if String.eqb input "" then (Some (os_Getwd w), w, [])
  else
    let input :=
      if String.prefix "~/" input
      then filepath_Join (os_UserHomeDir w)
             (substring 2 (String.length input - 2) input)
      else input in
    match filepath_Abs input w with
    | Err e => (None, w, [Did (EvPrint ("Invalid path: " +++ e +++ nl))])
    | Ok absPath =>
        match os_MkdirAll absPath w with
        | (Some e, w1) =>
            (None, w1,
             [ActMkdirAll absPath;
              Did (EvPrint ("Error creating directory: " +++ e +++ nl))])
        | (None, w1) => (Some absPath, w1, [ActMkdirAll absPath])
        end
    end.

Definition destinationPrompt : Action :=
  Did (EvPrint (nl +++ "Enter destination directory for your harvest "
                   +++ "(or press Enter for current directory): ")).

(** The prompt loop of [getDestinationDirectory]. *)
Fixpoint destinationLoop (stdin : list string) (w : World)
  : Outcome string * list string * World * list Action :=
  match stdin with
  | [] =>
      (* at the end of the input [ReadString] gives the empty string *)
      (Done (os_Getwd w), [], w, [destinationPrompt])
  | line :: rest =>
      match destinationTurn line w with
      | (Some dir, w1, t) => (Done dir, rest, w1, destinationPrompt :: t)
      | (None, w1, t) =>
          let '(o, stdin2, w2, t2) := destinationLoop rest w1 in
          (o, stdin2, w2, destinationPrompt :: t ++ t2)
      end
  end.

Definition getDestinationDirectory (destination : string) : Proc string :=
  if negb (String.eqb destination "") then
    err <-- act (ActMkdirAll destination) (os_MkdirAll destination) ;;
    match err with
    | Some e =>
        Fprintf_Stderr ("Error creating directory " +++ destination +++ ": "
                          +++ e +++ nl) ;;;;
        os_Exit 1
    | None => retP destination
    end
  else destinationLoop.

(** The input [selectRepositories] leaves unread. *)
Fixpoint selectRest (repos selected : list Repository) (stdin : list string)
  : list string :=
  match stdin with
  | [] => []
  | line :: rest =>
      match loopBody repos selected line with
      | Finish _ => rest
      | Restart langFiltered => selectRest langFiltered [] rest
      | Continue selected' => selectRest repos selected' rest
      end
  end.

(** [selectRepositories] as a step of the process; as before, what it
    prints is left out. *)
Definition selectRepositoriesP (repos : list Repository)
  : Proc (list Repository) :=
  fun stdin w =>
    (Done (selectRepositories repos stdin), selectRest repos [] stdin, w, []).

(** [runForklift] from the selection on, for the repositories that are
    left after the language pre-filter. *)
Definition harvestFiltered (f : flag.t) (repos : list Repository) : Proc unit :=
  selectedRepos <-- selectRepositoriesP repos ;;
  if (len selectedRepos =? 0)%Z then
    fmt_Println "No repositories selected for harvest."
  else
    destDir <-- getDestinationDirectory (flag.destination f) ;;
    let h := New (flag.recursive f) in
    fmt_Print (nl +++ "Harvesting " +++ fmt_d (len selectedRepos)
                 +++ " repositories to " +++ destDir +++ "..." +++ nl) ;;;;
    (if flag.useHTTPS f
     then fmt_Println "Using HTTPS for cloning (read-only friendly)"
     else fmt_Println "Using SSH for cloning (development ready)") ;;;;
    lift (harvestLoop h (flag.useHTTPS f) destDir selectedRepos) ;;;;
    fmt_Println (nl +++ "Harvest completed! Your open source garden is ready.") ;;;;
    if negb (flag.useHTTPS f) then
      fmt_Println "NOTE: Repositories are cloned via SSH - ready for development and contributions!"
    else retP tt.

(** [runForklift] from the discovered repositories on; the line
    [Filtered to ...] is the one [filterByLanguage] prints. *)
Definition harvestDiscovered (f : flag.t) (repos : list Repository) : Proc unit :=
  if (len repos =? 0)%Z then
    fmt_Println "No repositories found in the commons."
  else if negb (String.eqb (flag.filterLang f) "") then
    let repos := filterByLanguage repos (flag.filterLang f) in
    fmt_Print ("Filtered to " +++ fmt_d (len repos) +++ " repositories using "
                 +++ flag.filterLang f +++ nl) ;;;;
    if (len repos =? 0)%Z then
      fmt_Print ("No repositories found for language: " +++ flag.filterLang f
                   +++ nl)
    else harvestFiltered f repos
  else harvestFiltered f repos.

(** [runForklift]; the discovery is given [fuel] pages. *)
Definition runForklift (f : flag.t) (fuel : nat) (args : list string)
  : Proc unit :=
  let owner := nth 0 args "" in
  (if negb (flag.useHTTPS f) then checkSSHSetup else retP tt) ;;;;
  let client := NewClient (flag.token f) in
  fmt_Print ("Discovering repositories for " +++ owner +++ "..." +++ nl) ;;;;
  discovered <-- DiscoverRepositories fuel client owner ;;
  match discovered with
  | Err e =>
      Fprintf_Stderr ("Error discovering repositories: " +++ e +++ nl) ;;;;
      os_Exit 1
  | Ok repos => harvestDiscovered f repos
  end.

End Main.

(** The answer to [Continue anyway? (y/N)] read from the input: yes when
    the next line, in lower case and trimmed, is [y] or [yes]. *)
Definition saidYes (stdin : list string) : bool :=
  let response := strings.TrimSpace (strings.ToLower (hd "" stdin)) in
  String.eqb response "y" || String.eqb response "yes".

(** Whether one of the three key files is there. *)
Definition hasKey {X : Collaborators} {Y : System} (w : World) : bool :=
  existsb
    (fun keyFile =>
       os_Stat (filepath_Join (filepath_Join (os_UserHomeDir w) ".ssh") keyFile) w)
    keyFiles.

(** A stretch of a run that only prints. *)
Definition onlyPrints (t : list Action) : Prop :=
  Forall (fun a => exists text, a = Did (EvPrint text)) t.

(** Readings of what a run did: the URLs cloned and the directories made. *)
Fixpoint clonedURLs (t : list Action) : list string :=
  match t with
  | [] => []
  | Did (EvPlainClone _ url) :: t' => url :: clonedURLs t'
  | _ :: t' => clonedURLs t'
  end.

Fixpoint madeDirs (t : list Action) : list string :=
  match t with
  | [] => []
  | ActMkdirAll path :: t' => path :: madeDirs t'
  | _ :: t' => madeDirs t'
  end.

(** A run that, when it exits, exits with code 1 and has cloned nothing. *)
Definition exitsBeforeCloning {X : Collaborators} {A : Type}
  (r : Outcome A * list string * World * list Action) : Prop :=
  forall code, outcome r = Exit code -> code = 1%Z /\ clonedURLs (actions r) = [].

(** A small system for the examples, over [demoWorld]: the listing has
    two pages, the second asked for as page 2; [ssh -T] answers as GitHub does
    to a key it knows; directories under [/ro] cannot be made. *)
Definition ghRepo (fork : bool) (name language : string) : github.Repository :=
  github.mkRepository fork name ""
    ("https://github.com/o/" +++ name +++ ".git")
    ("git@github.com:o/" +++ name +++ ".git")
    language 0 0.

Definition demoSystem : System (X := demoWorld) :=
  @Build_System demoWorld
    (* os_UserHomeDir *) (fun w : list string => "/home/u")
    (* os_Getwd *) (fun w : list string => "/work")
    (* ssh_T *) (fun w : list string => (ExitError 1, w))
    (* os_MkdirAll *)
    (fun path (w : list string) =>
       if String.prefix "/ro" path
       then (Some "read-only file system", w)
       else (None, path :: w))
    (* filepath_Abs *)
    (fun path (w : list string) =>
       if String.prefix "/" path then Ok path else Ok ("/work/" +++ path))
    (* Repositories_List *)
    (fun token owner page (w : list string) =>
       if (page =? 0)%Z
       then (Ok ([ghRepo false "A" "Go"; ghRepo true "F" "Go"], 2%Z), w)
       else if (page =? 2)%Z
       then (Ok ([ghRepo false "N" ""], 0%Z), w)
       else (Err "404 Not Found", w)).

(** ** Vocabulary for the rest of the program *)

(** The byte [c] does not occur in [s]. *)
Fixpoint noByte (c : ascii) (s : string) : bool :=
  match s with
  | EmptyString => true
  | String d s' => negb (Ascii.eqb c d) && noByte c s'
  end.

Fixpoint onlyDigits (s : string) : bool :=
  match s with
  | EmptyString => true
  | String c s' =>
      match strconv.digit c with
      | Some _ => onlyDigits s'
      | None => false
      end
  end.

(** A token made of decimal digits, at least one. *)
Definition isNumeral (s : string) : bool :=
  match s with
  | EmptyString => false
  | _ => onlyDigits s
  end.

(** No byte of [s] is white space. *)
Fixpoint noSpace (s : string) : bool :=
  match s with
  | EmptyString => true
  | String c s' => negb (strings.isSpace c) && noSpace s'
  end.


(** The indices [first - 1], ..., [last - 1] of a range, in ascending order. *)
Definition rangeIndices (first last : Z) : list Z :=
  map (fun k => (first - 1 + Z.of_nat k)%Z)
      (seq 0 (Z.to_nat (last - first + 1))).

(** The names of the submodules whose update was started, in order. *)
Fixpoint updatedNames (t : list Event) : list string :=
  match t with
  | [] => []
  | EvSubmoduleUpdate name :: t' => name :: updatedNames t'
  | _ :: t' => updatedNames t'
  end.

(** * Properties *)

(** ** Strings *)

Lemma append_assoc (a b c : string) : (a +++ b) +++ c = a +++ b +++ c.
Proof. induction a as [|x a IH]; simpl; [reflexivity | now rewrite IH]. Qed.

Lemma prefix_spec (p s : string) :
  String.prefix p s = true <-> exists suf, s = p +++ suf.
Proof.
  revert s; induction p as [|c p IH]; intros s.
  - destruct s; simpl; (split; [intros _; eexists; reflexivity | reflexivity]).
  - destruct s as [|d s]; simpl.
    + split; [discriminate | intros [suf H]; discriminate].
    + destruct (ascii_dec c d) as [->|Hne].
      * rewrite IH. split; intros [suf H]; exists suf.
        -- now rewrite H.
        -- now injection H.
      * split; [discriminate | intros [suf H]; injection H; intros; congruence].
Qed.

Lemma Contains_unfold (s sub : string) :
  strings.Contains s sub =
  if String.prefix sub s then true
  else match s with
       | EmptyString => false
       | String _ s' => strings.Contains s' sub
       end.
Proof. destruct s; reflexivity. Qed.

Lemma Contains_spec (s sub : string) :
  strings.Contains s sub = true <-> exists pre suf, s = pre +++ sub +++ suf.
Proof.
  induction s as [|c s IH]; rewrite Contains_unfold.
  - destruct (String.prefix sub "") eqn:Hp.
    + apply prefix_spec in Hp. destruct Hp as [suf H].
      split; [intros _; now exists "", suf | reflexivity].
    + split; [discriminate | intros [pre [suf H]]].
      destruct pre; [|discriminate]. simpl in H.
      assert (String.prefix sub "" = true) by (apply prefix_spec; eauto).
      congruence.
  - destruct (String.prefix sub (String c s)) eqn:Hp.
    + apply prefix_spec in Hp. destruct Hp as [suf H].
      split; [intros _; now exists "", suf | reflexivity].
    + rewrite IH. split.
      * intros [pre [suf H]]. exists (String c pre), suf. simpl. now rewrite H.
      * intros [pre [suf H]]. destruct pre as [|d pre].
        -- simpl in H.
           assert (String.prefix sub (String c s) = true)
             by (apply prefix_spec; eauto).
           congruence.
        -- injection H; intros H' _. now exists pre, suf.
Qed.

Lemma ToLower_append (a b : string) :
  strings.ToLower (a +++ b) = strings.ToLower a +++ strings.ToLower b.
Proof. induction a as [|c a IH]; simpl; [reflexivity | now rewrite IH]. Qed.

Lemma ToLower_split (s a b : string) :
  strings.ToLower s = a +++ b ->
  exists s1 s2, s = s1 +++ s2 /\ strings.ToLower s1 = a /\ strings.ToLower s2 = b.
Proof.
  revert s; induction a as [|c a IH]; intros s H.
  - exists "", s. auto.
  - destruct s as [|d s]; [discriminate|]. simpl in H.
    injection H; intros H2 H1. destruct (IH _ H2) as [s1 [s2 [E [E1 E2]]]].
    exists (String d s1), s2. simpl. subst. auto.
Qed.

(** The program's test agrees with the specification's words, for a keyword
    written in lower case. *)
Lemma Contains_ToLower (s kw : string) :
  strings.ToLower kw = kw ->
  (strings.Contains (strings.ToLower s) kw = true <-> containsFold s kw).
Proof.
  intros Hkw. rewrite Contains_spec. unfold containsFold, equalFold. split.
  - intros [pre [suf H]].
    destruct (ToLower_split _ _ _ H) as [s1 [s' [E [E1 E']]]].
    destruct (ToLower_split _ _ _ E') as [s2 [s3 [E2 [E3 E4]]]].
    exists s1, s2, s3. subst. now rewrite Hkw.
  - intros [pre [mid [suf [E H]]]].
    exists (strings.ToLower pre), (strings.ToLower suf).
    subst. rewrite !ToLower_append, H. now rewrite Hkw.
Qed.

(** ** Slices built by [append] in a loop *)

Lemma fold_append_filter {A : Type} (p : A -> bool) (l acc : list A) :
  fold_left (fun acc x => if p x then acc ++ [x] else acc) l acc
  = acc ++ filter p l.
Proof.
  revert acc; induction l as [|x l IH]; intros acc; simpl.
  - now rewrite app_nil_r.
  - rewrite IH. destruct (p x); [now rewrite <- app_assoc | reflexivity].
Qed.

Lemma Kept_filter {A : Type} (P : A -> Prop) (p : A -> bool) (l : list A) :
  (forall x, p x = true <-> P x) -> Kept P l (filter p l).
Proof.
  intros Hp. induction l as [|x l IH]; simpl; [constructor|].
  destruct (p x) eqn:E.
  - apply Kept_take; [now apply Hp | exact IH].
  - apply Kept_drop; [|exact IH]. intros HP. apply Hp in HP. congruence.
Qed.

Lemma Kept_In {A : Type} (P : A -> Prop) (l l' : list A) :
  Kept P l l' -> forall x, In x l' <-> In x l /\ P x.
Proof.
  induction 1 as [|x l l' Hx _ IH|x l l' Hx _ IH]; intros y; simpl.
  - tauto.
  - rewrite IH. split; [intros [->|[? ?]]; auto | intros [[->|?] ?]; auto].
  - rewrite IH. split; [intros [? ?]; auto | intros [[->|?] ?]; tauto].
Qed.

Lemma filter_length_lt {A : Type} (p : A -> bool) (l : list A) :
  (List.length (filter p l) < List.length l)%nat
  <-> exists x, In x l /\ p x = false.
Proof.
  induction l as [|x l IH]; simpl.
  - split; [lia | intros [x [[] _]]].
  - pose proof (filter_length_le p l) as Hle.
    destruct (p x) eqn:E; simpl.
    + rewrite <- Nat.succ_lt_mono, IH. split.
      * intros [y [Hy Hp]]. eauto.
      * intros [y [[->|Hy] Hp]]; [congruence | eauto].
    + split; [intros _; eauto | intros _; lia].
Qed.

(** ** The [dev] heuristic *)

Lemma keywordLoop_existsb (r : Repository) (b : bool) (kws : list string) :
  keywordLoop (strings.ToLower (Name r)) (strings.ToLower (Description r)) b kws
  = if existsb (keywordHit r) kws then false else b.
Proof.
  induction kws as [|k kws IH]; simpl; [reflexivity|].
  unfold keywordHit at 1.
  destruct (strings.Contains _ k || strings.Contains _ k); [reflexivity | exact IH].
Qed.

Lemma languageLoop_existsb (lang : string) (b : bool) (langs : list string) :
  languageLoop lang b langs
  = if existsb (String.eqb lang) langs then false else b.
Proof.
  induction langs as [|l langs IH]; simpl; [reflexivity|].
  destruct (String.eqb lang l); [reflexivity | exact IH].
Qed.

Lemma isDevRepo_spec (r : Repository) : isDevRepo r = true <-> ~ excluded r.
Proof.
  unfold isDevRepo. rewrite languageLoop_existsb, keywordLoop_existsb.
  assert (Hkw : existsb (keywordHit r) excludeKeywords = true <->
                exists kw, In kw excludeKeywords /\
                  (containsFold (Name r) kw \/ containsFold (Description r) kw)).
  { rewrite existsb_exists. split; intros [kw [Hin H]]; exists kw; split; auto.
    - unfold keywordHit in H. apply orb_true_iff in H.
      assert (strings.ToLower kw = kw)
        by (simpl in Hin; repeat destruct Hin as [<-|Hin]; try reflexivity; tauto).
      destruct H as [H|H]; apply Contains_ToLower in H; auto.
    - unfold keywordHit. apply orb_true_iff.
      assert (strings.ToLower kw = kw)
        by (simpl in Hin; repeat destruct Hin as [<-|Hin]; try reflexivity; tauto).
      destruct H as [H|H]; [left | right]; now apply Contains_ToLower. }
  assert (Hlang : existsb (String.eqb (strings.ToLower (Language r)))
                    excludeLanguages = true <->
                  equalFold (Language r) "html" \/ equalFold (Language r) "css").
  { unfold excludeLanguages, equalFold. simpl.
    rewrite orb_false_r, orb_true_iff, !String.eqb_eq. tauto. }
  unfold excluded. fold excludeKeywords.
  destruct (existsb (String.eqb _) excludeLanguages);
    destruct (existsb (keywordHit r) excludeKeywords);
    split; try discriminate; try tauto; intros _ H.
  - destruct H as [H|H]; [apply Hkw in H; discriminate | apply Hlang in H; discriminate].
Qed.

Lemma selectDevRepositories_filter (repos : list Repository) :
  selectDevRepositories repos = filter isDevRepo repos.
Proof. unfold selectDevRepositories. now rewrite fold_append_filter. Qed.

(** ** The language filter *)

Lemma languageIs_spec (input : string) (r : Repository) :
  languageIs input r = true <-> equalFold (Language r) input.
Proof. unfold languageIs, equalFold. apply String.eqb_eq. Qed.

Lemma tryLanguageFilter_filter (repos : list Repository) (input : string) :
  tryLanguageFilter repos input = filter (languageIs input) repos.
Proof.
  unfold tryLanguageFilter. rewrite fold_append_filter. simpl.
  fold (languageIs input). destruct (filter (languageIs input) repos); reflexivity.
Qed.

Lemma filterByLanguage_filter (repos : list Repository) (language : string) :
  filterByLanguage repos language = filter (languageIs language) repos.
Proof. unfold filterByLanguage. now rewrite fold_append_filter. Qed.

Lemma tryLanguageFilter_nonempty (repos : list Repository) (input : string) :
  tryLanguageFilter repos input <> []
  <-> exists r, In r repos /\ equalFold (Language r) input.
Proof.
  rewrite tryLanguageFilter_filter. split.
  - destruct (filter (languageIs input) repos) as [|r m] eqn:E; [congruence|].
    intros _. exists r.
    assert (In r (filter (languageIs input) repos)) by (rewrite E; now left).
    apply filter_In in H. now rewrite <- languageIs_spec.
  - intros [r [Hin H]] E. apply languageIs_spec in H.
    assert (In r (filter (languageIs input) repos)) by (apply filter_In; auto).
    rewrite E in H0. contradiction.
Qed.

Lemma tryLanguageFilter_empty (repos : list Repository) (input : string) :
  tryLanguageFilter repos input = []
  <-> forall r, In r repos -> ~ equalFold (Language r) input.
Proof.
  split.
  - intros E r Hin H.
    apply (proj2 (tryLanguageFilter_nonempty repos input)); eauto.
  - intros H. destruct (tryLanguageFilter repos input) as [|r m] eqn:E; [reflexivity|].
    assert (Hne : tryLanguageFilter repos input <> []) by (rewrite E; discriminate).
    apply tryLanguageFilter_nonempty in Hne. destruct Hne as [x [Hin Hx]].
    now destruct (H x Hin).
Qed.

(** ** The prompt loop *)

Lemma TrimSpace_ln_dev : strings.TrimSpace (ln "dev") = "dev".
Proof. reflexivity. Qed.

(** A line that is neither empty, nor [all], nor [dev] goes to the language
    filter first and to the numbers only when the filter finds nothing. *)
Lemma loopBody_other (repos selected : list Repository) (line : string) :
  strings.TrimSpace line <> "" ->
  strings.TrimSpace line <> "all" ->
  strings.TrimSpace line <> "dev" ->
  loopBody repos selected line =
  match tryLanguageFilter repos (strings.TrimSpace line) with
  | (_ :: _) as langFiltered => Restart langFiltered
  | [] => Continue (addIndices repos selected
                      (parseSelection (strings.TrimSpace line) (len repos)))
  end.
Proof.
  intros H1 H2 H3. unfold loopBody.
  apply String.eqb_neq in H1, H2, H3. now rewrite H1, H2, H3.
Qed.

Lemma loopBody_restart (repos selected : list Repository) (line : string) :
  strings.TrimSpace line <> "" ->
  strings.TrimSpace line <> "all" ->
  strings.TrimSpace line <> "dev" ->
  (exists r, In r repos /\ equalFold (Language r) (strings.TrimSpace line)) ->
  loopBody repos selected line
  = Restart (tryLanguageFilter repos (strings.TrimSpace line)).
Proof.
  intros H1 H2 H3 Hex. rewrite loopBody_other by assumption.
  apply tryLanguageFilter_nonempty in Hex.
  destruct (tryLanguageFilter repos (strings.TrimSpace line)); congruence.
Qed.

Lemma loopBody_numbers (repos selected : list Repository) (line : string) :
  strings.TrimSpace line <> "" ->
  strings.TrimSpace line <> "all" ->
  strings.TrimSpace line <> "dev" ->
  (forall r, In r repos -> ~ equalFold (Language r) (strings.TrimSpace line)) ->
  loopBody repos selected line
  = Continue (addIndices repos selected
                (parseSelection (strings.TrimSpace line) (len repos))).
Proof.
  intros H1 H2 H3 Hno. rewrite loopBody_other by assumption.
  apply tryLanguageFilter_empty in Hno. now rewrite Hno.
Qed.

(** ** The accumulated selection *)

Lemma alreadySelected_spec (selected : list Repository) (name : string) :
  alreadySelected selected name = true <-> In name (map Name selected).
Proof.
  induction selected as [|s rest IH]; simpl; [split; [discriminate | tauto]|].
  destruct (String.eqb (Name s) name) eqn:E.
  - apply String.eqb_eq in E. tauto.
  - apply String.eqb_neq in E. rewrite IH. tauto.
Qed.

Lemma addIndex_cases (repos selected : list Repository) (idx : Z) :
  addIndex repos selected idx = selected \/
  exists r, nth_error repos (Z.to_nat idx) = Some r /\
            ~ In (Name r) (map Name selected) /\
            addIndex repos selected idx = selected ++ [r].
Proof.
  unfold addIndex. destruct ((0 <=? idx) && (idx <? len repos))%Z; auto.
  destruct (nth_error repos (Z.to_nat idx)) as [r|] eqn:E; auto.
  destruct (alreadySelected selected (Name r)) eqn:Ha; auto.
  right. exists r. repeat split; auto.
  intros Hin. apply alreadySelected_spec in Hin. congruence.
Qed.

Lemma addIndex_present (repos selected : list Repository) (idx : Z) (r : Repository) :
  nth_error repos (Z.to_nat idx) = Some r ->
  In (Name r) (map Name selected) ->
  addIndex repos selected idx = selected.
Proof.
  intros Hn Hin. unfold addIndex. rewrite Hn.
  apply alreadySelected_spec in Hin. rewrite Hin.
  now destruct ((0 <=? idx) && (idx <? len repos))%Z.
Qed.

Lemma addIndex_NoDup (repos selected : list Repository) (idx : Z) :
  NoDup (map Name selected) -> NoDup (map Name (addIndex repos selected idx)).
Proof.
  intros Hnd. destruct (addIndex_cases repos selected idx) as [->|[r [_ [Hr ->]]]]; auto.
  rewrite map_app. simpl. apply NoDup_app; auto.
  - repeat constructor. intros [].
  - intros a Ha [<-|[]]. contradiction.
Qed.

Lemma addIndex_incl (repos selected : list Repository) (idx : Z) :
  incl selected repos -> incl (addIndex repos selected idx) repos.
Proof.
  intros Hi. destruct (addIndex_cases repos selected idx) as [->|[r [Hn [_ ->]]]]; auto.
  apply incl_app; auto. intros x [<-|[]]. eapply nth_error_In; eauto.
Qed.

Lemma addIndices_app (repos : list Repository) (indices : list Z) :
  forall selected, exists added,
    addIndices repos selected indices = selected ++ added.
Proof.
  unfold addIndices. induction indices as [|idx l IH]; intros selected; simpl.
  - exists []. now rewrite app_nil_r.
  - destruct (IH (addIndex repos selected idx)) as [added ->].
    destruct (addIndex_cases repos selected idx) as [->|[r [_ [_ ->]]]].
    + now exists added.
    + exists (r :: added). now rewrite <- app_assoc.
Qed.

Lemma addIndices_NoDup (repos : list Repository) (indices : list Z) :
  forall selected, NoDup (map Name selected) ->
                   NoDup (map Name (addIndices repos selected indices)).
Proof.
  unfold addIndices. induction indices as [|idx l IH]; intros selected H; simpl; auto.
  apply IH. now apply addIndex_NoDup.
Qed.

Lemma addIndices_incl (repos : list Repository) (indices : list Z) :
  forall selected, incl selected repos ->
                   incl (addIndices repos selected indices) repos.
Proof.
  unfold addIndices. induction indices as [|idx l IH]; intros selected H; simpl; auto.
  apply IH. now apply addIndex_incl.
Qed.

(** Once the indices of a line are in, each of them names an item whose name
    is in the selection. *)
Lemma addIndices_covers (repos : list Repository) (indices : list Z) :
  forall selected idx r,
    In idx indices -> nth_error repos (Z.to_nat idx) = Some r ->
    (0 <= idx < len repos)%Z ->
    In (Name r) (map Name (addIndices repos selected indices)).
Proof.
  unfold addIndices. induction indices as [|i l IH]; intros selected idx r Hin Hn Hr;
    simpl in *; [contradiction|].
  destruct Hin as [->|Hin]; [|eapply IH; eauto].
  destruct (addIndices_app repos l (addIndex repos selected idx)) as [added E].
  unfold addIndices in E. rewrite E, map_app. apply in_or_app. left.
  destruct (addIndex_cases repos selected idx) as [E'|[r' [Hn' [_ ->]]]].
  - rewrite E'. apply alreadySelected_spec.
    unfold addIndex in E'. rewrite Hn in E'.
    replace ((0 <=? idx) && (idx <? len repos))%Z with true in E'
      by (symmetry; apply andb_true_iff; split; [apply Z.leb_le | apply Z.ltb_lt]; lia).
    destruct (alreadySelected selected (Name r)); [reflexivity|].
    exfalso. apply (f_equal (@List.length _)) in E'. rewrite length_app in E'.
    simpl in E'. lia.
  - rewrite map_app. apply in_or_app. right. left. congruence.
Qed.

Lemma addIndex_outside (repos selected : list Repository) (idx : Z) :
  ~ (0 <= idx < len repos)%Z -> addIndex repos selected idx = selected.
Proof.
  intros H. unfold addIndex.
  destruct ((0 <=? idx) && (idx <? len repos))%Z eqn:E; [|reflexivity].
  apply andb_true_iff in E. destruct E as [E1 E2].
  apply Z.leb_le in E1. apply Z.ltb_lt in E2. lia.
Qed.

(** Entering the same indices again changes nothing. *)
Lemma addIndices_idempotent (repos selected : list Repository) (indices : list Z) :
  addIndices repos (addIndices repos selected indices) indices
  = addIndices repos selected indices.
Proof.
  set (sel := addIndices repos selected indices).
  assert (Hfix : forall idx, In idx indices -> addIndex repos sel idx = sel).
  { intros idx Hin.
    destruct (Z_le_dec 0 idx) as [H0|H0];
      [destruct (Z_lt_dec idx (len repos)) as [H1|H1]|];
      try (apply addIndex_outside; lia).
    destruct (nth_error repos (Z.to_nat idx)) as [r|] eqn:E.
    - eapply addIndex_present; eauto.
      eapply addIndices_covers; eauto.
    - unfold addIndex. rewrite E. now destruct (_ && _)%bool. }
  clearbody sel. unfold addIndices.
  induction indices as [|i l IH]; simpl; [reflexivity|].
  rewrite Hfix by now left. apply IH. intros idx Hin. apply Hfix. now right.
Qed.

Lemma loopBody_Continue_inv (repos selected selected' : list Repository)
  (line : string) :
  loopBody repos selected line = Continue selected' ->
  selected' = addIndices repos selected
                (parseSelection (strings.TrimSpace line) (len repos)) /\
  forall other,
    loopBody repos other line
    = Continue (addIndices repos other
                  (parseSelection (strings.TrimSpace line) (len repos))).
Proof.
  unfold loopBody.
  destruct (String.eqb (strings.TrimSpace line) ""); [discriminate|].
  destruct (String.eqb (strings.TrimSpace line) "all"); [discriminate|].
  destruct (String.eqb (strings.TrimSpace line) "dev"); [discriminate|].
  destruct (tryLanguageFilter repos (strings.TrimSpace line)); [|discriminate].
  intros H. injection H as <-. auto.
Qed.

Lemma Reachable_NoDup (repos0 repos selected : list Repository) :
  Reachable repos0 repos selected -> NoDup (map Name selected).
Proof.
  induction 1 as [|repos selected line selected' _ IH Hstep|]; simpl;
    try constructor.
  apply loopBody_Continue_inv in Hstep. destruct Hstep as [-> _].
  now apply addIndices_NoDup.
Qed.

(** What the loop returns is drawn from the candidates it was given. *)
Lemma selectLoop_incl (stdin : list string) :
  forall repos selected,
    incl selected repos -> incl (selectLoop repos selected stdin) repos.
Proof.
  induction stdin as [|line rest IH]; intros repos selected Hsel; simpl; auto.
  unfold loopBody.
  destruct (String.eqb (strings.TrimSpace line) ""); auto.
  destruct (String.eqb (strings.TrimSpace line) "all"); [apply incl_refl|].
  destruct (String.eqb (strings.TrimSpace line) "dev").
  { rewrite selectDevRepositories_filter. apply incl_filter. }
  destruct (tryLanguageFilter repos (strings.TrimSpace line)) as [|r m] eqn:E.
  - apply IH. now apply addIndices_incl.
  - eapply incl_tran; [apply IH; intros x []|].
    rewrite <- E, tryLanguageFilter_filter. apply incl_filter.
Qed.

Lemma selectLoop_restart (repos selected : list Repository) (line : string)
  (rest : list string) :
  strings.TrimSpace line <> "" ->
  strings.TrimSpace line <> "all" ->
  strings.TrimSpace line <> "dev" ->
  (exists r, In r repos /\ equalFold (Language r) (strings.TrimSpace line)) ->
  selectLoop repos selected (line :: rest)
  = selectRepositories (tryLanguageFilter repos (strings.TrimSpace line)) rest.
Proof.
  intros H1 H2 H3 Hex. simpl. now rewrite loopBody_restart.
Qed.

Lemma selectLoop_enter (repos selected : list Repository) (rest : list string) :
  selectLoop repos selected (ln "" :: rest) = selected.
Proof. reflexivity. Qed.


Lemma selectLoop_continue (repos selected selected' : list Repository)
  (line : string) (rest : list string) :
  loopBody repos selected line = Continue selected' ->
  selectLoop repos selected (line :: rest) = selectLoop repos selected' rest.
Proof. intros H. simpl. now rewrite H. Qed.

(** ** The claims about the selection engine *)


(** C3, as amended.  A line that is not empty, [all] or [dev] and that
    equals, up to case, the language of at least one candidate restarts the
    selection on the narrowed collection.  The narrowed collection holds
    exactly the candidates with that language, in their order; it is not
    empty; and it is smaller than the collection only when some candidate has
    another language. *)
Theorem language_line_narrows (repos selected : list Repository)
  (line : string) (rest : list string) :
  let input := strings.TrimSpace line in
  let narrowed := tryLanguageFilter repos input in
  input <> "" -> input <> "all" -> input <> "dev" ->
  (exists r, In r repos /\ equalFold (Language r) input) ->
  selectLoop repos selected (line :: rest) = selectRepositories narrowed rest /\
  Kept (fun r => equalFold (Language r) input) repos narrowed /\
  narrowed <> [] /\
  (StrictlyNarrower narrowed repos
   <-> exists r, In r repos /\ ~ equalFold (Language r) input).
Proof.
  intros input narrowed H1 H2 H3 Hex. subst input narrowed.
  split; [now apply selectLoop_restart|].
  split; [rewrite tryLanguageFilter_filter; apply Kept_filter, languageIs_spec|].
  split; [now apply tryLanguageFilter_nonempty|].
  rewrite tryLanguageFilter_filter. unfold StrictlyNarrower.
  rewrite filter_length_lt. split.
  - intros [_ [r [Hin Hr]]]. exists r. split; auto.
    rewrite <- languageIs_spec. congruence.
  - intros [r [Hin Hr]]. split; [apply incl_filter|]. exists r. split; auto.
    rewrite <- languageIs_spec in Hr. now destruct (languageIs _ r).
Qed.


(** C10. A language-filter line drops what was selected so far: the result
    is that of a fresh selection on the narrowed collection with the lines
    that follow, it is the same whatever had been selected, and every item of
    it comes from the narrowed collection. *)
Theorem language_line_drops_selection (repos selected : list Repository)
  (line : string) (rest : list string) :
  let input := strings.TrimSpace line in
  let narrowed := tryLanguageFilter repos input in
  input <> "" -> input <> "all" -> input <> "dev" ->
  (exists r, In r repos /\ equalFold (Language r) input) ->
  selectLoop repos selected (line :: rest) = selectLoop narrowed [] rest /\
  (forall selected',
      selectLoop repos selected' (line :: rest)
      = selectLoop repos selected (line :: rest)) /\
  incl (selectLoop repos selected (line :: rest)) narrowed.
Proof.
  intros input narrowed H1 H2 H3 Hex. subst input narrowed.
  rewrite selectLoop_restart by assumption. repeat split.
  - intros selected'. now rewrite selectLoop_restart.
  - apply selectLoop_incl. intros x [].
Qed.

(** C5. The accumulated selection never holds two items of the same name,
    at any state the prompt loop reaches; a line of numbers only appends to
    it; entering the same line again leaves it as it is; and an index whose
    item's name is already there adds nothing. *)
Theorem selection_append_only_without_duplicates
  (repos0 repos selected : list Repository) :
  Reachable repos0 repos selected ->
  NoDup (map Name selected) /\
  (forall line selected',
      loopBody repos selected line = Continue selected' ->
      (exists added, selected' = selected ++ added) /\
      NoDup (map Name selected') /\
      loopBody repos selected' line = Continue selected') /\
  (forall idx r,
      nth_error repos (Z.to_nat idx) = Some r ->
      In (Name r) (map Name selected) ->
      addIndex repos selected idx = selected).
Proof.
  intros Hreach. pose proof (Reachable_NoDup _ _ _ Hreach) as Hnd.
  split; [exact Hnd|]. split.
  - intros line selected' Hstep.
    destruct (loopBody_Continue_inv _ _ _ _ Hstep) as [-> Hany].
    split; [apply addIndices_app|]. split; [now apply addIndices_NoDup|].
    rewrite Hany. now rewrite addIndices_idempotent.
  - intros idx r. apply addIndex_present.
Qed.

(** ** The numbers and ranges of a line *)

Example parseSelection_list : parseSelection "2,4" 5 = [1; 3]%Z.
Proof. reflexivity. Qed.

Example parseSelection_range : parseSelection "2-4" 5 = [1; 2; 3]%Z.
Proof. reflexivity. Qed.

Example parseSelection_out_of_range : parseSelection "0,6" 5 = [].
Proof. reflexivity. Qed.

Example parseSelection_twice : parseSelection "2,2" 5 = [1; 1]%Z.
Proof. reflexivity. Qed.

Example parseSelection_mixed :
  parseSelection " 1 , x, 3 - 4 ,5-2,-1,7,+2" 5 = [0; 2; 3; 1]%Z.
Proof. reflexivity. Qed.

(** C1. On a collection of five items with distinct names, none of whose
    languages is one of the lines entered: ["2,4"] selects the second and the
    fourth item; ["2-4"] the second, third and fourth; ["0,6"] nothing, both
    numbers being out of range and skipped; ["2,2"] the second item once. *)
Theorem numeric_selection_examples (r1 r2 r3 r4 r5 : Repository) :
  let repos := [r1; r2; r3; r4; r5] in
  NoDup (map Name repos) ->
  (forall input r,
      In input ["2,4"; "2-4"; "0,6"; "2,2"] -> In r repos ->
      ~ equalFold (Language r) input) ->
  selectRepositories repos [ln "2,4"; ln ""] = [r2; r4] /\
  selectRepositories repos [ln "2-4"; ln ""] = [r2; r3; r4] /\
  selectRepositories repos [ln "0,6"; ln ""] = [] /\
  selectRepositories repos [ln "2,2"; ln ""] = [r2].
Proof.
  intros repos Hnd Hlang.
  assert (Hstep : forall input,
             In input ["2,4"; "2-4"; "0,6"; "2,2"] ->
             strings.TrimSpace (ln input) = input ->
             selectRepositories repos [ln input; ln ""]
             = addIndices repos [] (parseSelection input 5)).
  { intros input Hin Htrim. unfold selectRepositories.
    erewrite selectLoop_continue; [apply selectLoop_enter|].
    rewrite loopBody_numbers; rewrite ?Htrim.
    - reflexivity.
    - simpl in Hin. intuition (subst; discriminate).
    - simpl in Hin. intuition (subst; discriminate).
    - simpl in Hin. intuition (subst; discriminate).
    - intros r Hr. now apply Hlang. }
  assert (Hne : Name r2 <> Name r3 /\ Name r2 <> Name r4 /\ Name r3 <> Name r4).
  { subst repos. simpl in Hnd. repeat rewrite NoDup_cons_iff in Hnd. simpl in Hnd.
    intuition congruence. }
  destruct Hne as [H23 [H24 H34]].
  apply String.eqb_neq in H23, H24, H34.
  rewrite !Hstep by (simpl; auto).
  rewrite parseSelection_list, parseSelection_range,
    parseSelection_out_of_range, parseSelection_twice.
  subst repos. unfold addIndices. simpl fold_left. unfold addIndex.
  change (Z.to_nat 1) with 1%nat. change (Z.to_nat 2) with 2%nat.
  change (Z.to_nat 3) with 3%nat. cbn.
  rewrite ?H23, ?H24, ?String.eqb_refl. cbn.
  rewrite ?H24, ?H34. auto.
Qed.


(** *** The claims at concrete inputs *)

Lemma numeric_selection_examples_witness :
  selectRepositories five [ln "2,4"; ln ""]
    = [sample "site" "HTML"; sample "lib" "Rust"] /\
  selectRepositories five [ln "2-4"; ln ""]
    = [sample "site" "HTML"; sample "api" "Python"; sample "lib" "Rust"] /\
  selectRepositories five [ln "0,6"; ln ""] = [] /\
  selectRepositories five [ln "2,2"; ln ""] = [sample "site" "HTML"].
Proof.
  apply (numeric_selection_examples
           (sample "cli" "Go") (sample "site" "HTML") (sample "api" "Python")
           (sample "lib" "Rust") (sample "tool" "Go")).
  - repeat constructor; simpl; intuition discriminate.
  - intros input r Hin Hr H. simpl in Hin, Hr.
    repeat (destruct Hin as [<-|Hin]; [|]); try contradiction;
      repeat (destruct Hr as [<-|Hr]; [|]); try contradiction;
      vm_compute in H; discriminate.
Defined.

Lemma language_line_narrows_witness :
  selectLoop scenario [repoB] (ln "GO" :: [ln "all"]) = [repoA; repoC] /\
  StrictlyNarrower (tryLanguageFilter scenario "GO") scenario.
Proof.
  assert (Hex : exists r, In r scenario /\
                          equalFold (Language r) (strings.TrimSpace (ln "GO")))
    by (exists repoA; split; [now left | reflexivity]).
  destruct (language_line_narrows scenario [repoB] (ln "GO") [ln "all"])
    as [Hrun [_ [_ Hstrict]]]; try discriminate; try exact Hex.
  split.
  - rewrite Hrun. reflexivity.
  - apply Hstrict. exists repoB. split; [right; now left | discriminate].
Defined.

(** C3, as the specification words it, fails: when every candidate has the
    language entered, the narrowed collection is the whole collection; and
    the line [dev] is the [dev] command even when it is some candidate's
    language. *)
Lemma language_filter_need_not_narrow :
  loopBody [repoA; repoC] [] (ln "go") = Restart [repoA; repoC] /\
  ~ StrictlyNarrower (tryLanguageFilter [repoA; repoC] "go") [repoA; repoC] /\
  equalFold (Language devLanguageRepo) (strings.TrimSpace (ln "dev")) /\
  loopBody [devLanguageRepo] [] (ln "dev") = Finish [devLanguageRepo].
Proof.
  split; [reflexivity|]. split; [|split; reflexivity].
  intros [_ H]. vm_compute in H. lia.
Qed.


Lemma language_line_drops_selection_witness :
  selectLoop scenario [repoB] [ln "go"; ln "1"; ln ""] = [repoA].
Proof.
  destruct (language_line_drops_selection scenario [repoB] (ln "go") [ln "1"; ln ""])
    as [Hrun _]; try discriminate.
  - exists repoA. split; [now left | reflexivity].
  - rewrite Hrun. reflexivity.
Defined.

Lemma selection_append_only_without_duplicates_witness :
  Reachable scenario scenario [repoA] /\
  NoDup (map Name [repoA]) /\
  loopBody scenario [repoA] (ln "1,3") = Continue [repoA; repoC].
Proof.
  assert (H : Reachable scenario scenario [repoA]).
  { apply (Reachable_continue scenario scenario [] (ln "1") [repoA]);
      [apply Reachable_start | reflexivity]. }
  split; [exact H|]. split.
  - exact (proj1 (selection_append_only_without_duplicates _ _ _ H)).
  - reflexivity.
Defined.



(** ** Traces *)

Section TraceLemmas.
Context {X : Collaborators}.

Lemma bind_run {A B : Type} (m : M A) (k : A -> M B) (w : World) :
  bind m k w =
  (value (k (value (m w)) (after (m w))),
   after (k (value (m w)) (after (m w))),
   events (m w) ++ events (k (value (m w)) (after (m w)))).
Proof.
  unfold bind, value, after, events.
  destruct (m w) as [[a w1] t1]. simpl.
  destruct (k a w1) as [[b w2] t2]. reflexivity.
Qed.

Lemma events_bind {A B : Type} (m : M A) (k : A -> M B) (w : World) :
  events (bind m k w) = events (m w) ++ events (k (value (m w)) (after (m w))).
Proof. now rewrite bind_run. Qed.

Lemma run_eta {A : Type} (r : A * World * list Event) :
  r = (value r, after r, events r).
Proof. now destruct r as [[a w] t]. Qed.

Lemma statPaths_app (t1 t2 : list Event) :
  statPaths (t1 ++ t2) = statPaths t1 ++ statPaths t2.
Proof.
  induction t1 as [|e t1 IH]; simpl; [reflexivity|].
  destruct e; simpl; now rewrite IH.
Qed.

Lemma cloneURLs_app (t1 t2 : list Event) :
  cloneURLs (t1 ++ t2) = cloneURLs t1 ++ cloneURLs t2.
Proof.
  induction t1 as [|e t1 IH]; simpl; [reflexivity|].
  destruct e; simpl; now rewrite IH.
Qed.

Lemma quiet_nil : quiet [].
Proof. now repeat split. Qed.

Lemma quiet_app (t1 t2 : list Event) : quiet t1 -> quiet t2 -> quiet (t1 ++ t2).
Proof.
  intros [A1 [B1 C1]] [A2 [B2 C2]]. unfold quiet.
  now rewrite statPaths_app, cloneURLs_app, filter_app, A1, A2, B1, B2, C1, C2.
Qed.

Lemma quiet_cons (e : Event) (t : list Event) :
  quiet [e] -> quiet t -> quiet (e :: t).
Proof. intros H1 H2. now apply (quiet_app [e] t). Qed.

Lemma updateLoop_quiet (submodules : list GitSubmodule) (w : World) :
  quiet (events (updateLoop submodules w)).
Proof.
  revert w; induction submodules as [|s rest IH]; intros w; simpl.
  - apply quiet_nil.
  - rewrite bind_run. apply quiet_app; [now repeat split|].
    rewrite bind_run. apply quiet_app.
    + unfold call, events. destruct (submodule_Update s _). now repeat split.
    + destruct (value _); [apply quiet_nil | apply IH].
Qed.

Lemma cultivateSubmodules_quiet (h : Harvester) (repo : GitRepository)
  (repoPath : string) (w : World) :
  quiet (events (cultivateSubmodules h repo repoPath w)).
Proof.
  unfold cultivateSubmodules. rewrite bind_run. apply quiet_app.
  { unfold call, events. destruct (repo_Worktree repo w). now repeat split. }
  destruct (value _) as [worktree|e]; [|apply quiet_nil].
  rewrite bind_run. apply quiet_app.
  { unfold call, events. destruct (worktree_Submodules worktree _). now repeat split. }
  destruct (value _) as [submodules|e]; [|apply quiet_nil].
  destruct (len submodules =? 0)%Z; [apply quiet_nil|].
  rewrite bind_run. apply quiet_app; [now repeat split | apply updateLoop_quiet].
Qed.

(** [HarvestRepository], run. *)
Lemma HarvestRepository_run (h : Harvester) (url path : string) (w : World) :
  HarvestRepository h url path w =
  if os_Stat path w then
    (Some ("directory " +++ path +++ " already exists"), w, [EvStat path])
  else
    match git_PlainClone path url w with
    | (Err e, w1) =>
        (Some ("failed to harvest: " +++ e), w1,
         [EvStat path; EvPlainClone path url])
    | (Ok repo, w1) =>
        if recursive h then
          let r := cultivateSubmodules h repo path w1 in
          (None, after r,
           EvStat path :: EvPlainClone path url :: events r ++
             match value r with
             | Some e =>
                 [EvPrint ("  WARNING: failed to cultivate submodules: "
                             +++ e +++ nl)]
             | None => []
             end)
        else (None, w1, [EvStat path; EvPlainClone path url])
    end.
Proof.
  unfold HarvestRepository, bind, call, ret, Printf, emit.
  destruct (os_Stat path w); [reflexivity|].
  destruct (git_PlainClone path url w) as [[repo|e] w1]; [|reflexivity].
  destruct (recursive h); [|reflexivity].
  unfold value, after, events.
  destruct (cultivateSubmodules h repo path w1) as [[[e|] w2] t]; simpl;
    rewrite ?app_nil_r; reflexivity.
Qed.

(** [HarvestRepository] probes the path once; it clones at most once, the
    [url] it was given, and only when the probe found nothing. *)
Lemma HarvestRepository_existing (h : Harvester) (url path : string) (w : World) :
  os_Stat path w = true ->
  HarvestRepository h url path w
  = (Some ("directory " +++ path +++ " already exists"), w, [EvStat path]).
Proof. intros H. now rewrite HarvestRepository_run, H. Qed.

Lemma HarvestRepository_absent (h : Harvester) (url path : string) (w : World) :
  os_Stat path w = false ->
  exists t, events (HarvestRepository h url path w)
            = EvStat path :: EvPlainClone path url :: t /\ quiet t.
Proof.
  intros H. rewrite HarvestRepository_run, H.
  destruct (git_PlainClone path url w) as [[repo|e] w1].
  - destruct (recursive h).
    + eexists. split; [reflexivity|].
      apply quiet_app; [apply cultivateSubmodules_quiet|].
      destruct (value _); [now repeat split | apply quiet_nil].
    + eexists. split; [reflexivity | apply quiet_nil].
  - eexists. split; [reflexivity | apply quiet_nil].
Qed.

Lemma HarvestRepository_trace (h : Harvester) (url path : string) (w : World) :
  statPaths (events (HarvestRepository h url path w)) = [path] /\
  filter isHeader (events (HarvestRepository h url path w)) = [] /\
  incl (cloneURLs (events (HarvestRepository h url path w))) [url].
Proof.
  destruct (os_Stat path w) eqn:E.
  - rewrite HarvestRepository_existing by assumption.
    repeat split. intros x [].
  - destruct (HarvestRepository_absent h url path w E) as [t [-> [A [B C]]]].
    simpl. rewrite A, B, C. repeat split. apply incl_refl.
Qed.

End TraceLemmas.

(** ** The clone loop *)

Section CloneLoopLemmas.
Context {X : Collaborators}.
Variable h : Harvester.
Variable useHTTPS : bool.
Variable destDir : string.

(** One item of the loop, run. *)
Lemma harvestItem_run (i n : Z) (repo : Repository) (w : World) :
  let repoPath := filepath_Join destDir (Name repo) in
  let cloneURL := if useHTTPS then CloneURL repo else SSHURL repo in
  let first := HarvestRepository h cloneURL repoPath w in
  let retry := HarvestRepository h (CloneURL repo) repoPath (after first) in
  harvestItem h useHTTPS destDir i n repo w =
  match value first with
  | None =>
      (tt, after first,
       EvPrint (header i n repo) :: events first ++
         [EvPrint ("  Successfully harvested " +++ Name repo +++ nl)])
  | Some e =>
      if negb useHTTPS && strings.Contains e "ssh" then
        (tt, after retry,
         EvPrint (header i n repo) :: events first ++
           EvPrint ("  FAILED to harvest " +++ Name repo +++ ": " +++ e +++ nl) ::
           EvPrint ("  SSH failed, trying HTTPS for " +++ Name repo +++ "..." +++ nl) ::
           events retry ++
           [EvPrint
              match value retry with
              | Some e' =>
                  "  HTTPS also failed for " +++ Name repo +++ ": " +++ e' +++ nl
              | None =>
                  "  Successfully harvested " +++ Name repo +++ " via HTTPS" +++ nl
              end])
      else
        (tt, after first,
         EvPrint (header i n repo) :: events first ++
           [EvPrint ("  FAILED to harvest " +++ Name repo +++ ": " +++ e +++ nl)])
  end.
Proof.
  intros repoPath cloneURL first retry. subst first retry.
  unfold harvestItem. fold repoPath. fold cloneURL.
  unfold bind, Printf, emit, ret, value, after, events.
  destruct (HarvestRepository h cloneURL repoPath w) as [[[e|] w1] t1]; simpl;
    [|reflexivity].
  destruct (negb useHTTPS && strings.Contains e "ssh"); simpl.
  - destruct (HarvestRepository h (CloneURL repo) repoPath w1) as [[[e'|] w2] t2];
      simpl; repeat (rewrite <- ?app_assoc; simpl); reflexivity.
  - rewrite ?app_nil_r. reflexivity.
Qed.

Lemma header_isHeader (i n : Z) (repo : Repository) :
  isHeader (EvPrint (header i n repo)) = true.
Proof.
  unfold isHeader, header. apply prefix_spec. eexists.
  symmetry. apply append_assoc.
Qed.

Lemma harvestItem_headers (i n : Z) (repo : Repository) (w : World) :
  filter isHeader (events (harvestItem h useHTTPS destDir i n repo w))
  = [EvPrint (header i n repo)].
Proof.
  pose proof (harvestItem_run i n repo w) as Hrun. cbv zeta in Hrun. rewrite Hrun.
  clear Hrun.
  pose proof (header_isHeader i n repo) as Hhd.
  set (hd := EvPrint (header i n repo)) in *. clearbody hd.
  set (repoPath := filepath_Join destDir (Name repo)).
  set (cloneURL := if useHTTPS then CloneURL repo else SSHURL repo).
  destruct (HarvestRepository_trace h cloneURL repoPath w) as [_ [H1 _]].
  destruct (value (HarvestRepository h cloneURL repoPath w)) as [e|].
  - destruct (negb useHTTPS && strings.Contains e "ssh").
    + destruct (HarvestRepository_trace h (CloneURL repo) repoPath
                  (after (HarvestRepository h cloneURL repoPath w))) as [_ [H2 _]].
      unfold events at 1. simpl filter at 1.
      rewrite Hhd, filter_app, H1. simpl. rewrite filter_app, H2. simpl.
      destruct (value (HarvestRepository h (CloneURL repo) repoPath _)); reflexivity.
    + unfold events at 1. simpl filter at 1. rewrite Hhd, filter_app, H1. reflexivity.
  - unfold events at 1. simpl filter at 1. rewrite Hhd, filter_app, H1. reflexivity.
Qed.

Lemma harvestItem_statPaths (i n : Z) (repo : Repository) (w : World) :
  let repoPath := filepath_Join destDir (Name repo) in
  let cloneURL := if useHTTPS then CloneURL repo else SSHURL repo in
  statPaths (events (harvestItem h useHTTPS destDir i n repo w)) =
  match value (HarvestRepository h cloneURL repoPath w) with
  | Some e =>
      if negb useHTTPS && strings.Contains e "ssh"
      then [repoPath; repoPath] else [repoPath]
  | None => [repoPath]
  end.
Proof.
  intros repoPath cloneURL.
  pose proof (harvestItem_run i n repo w) as Hrun. cbv zeta in Hrun. rewrite Hrun.
  clear Hrun.
  fold repoPath. fold cloneURL.
  destruct (HarvestRepository_trace h cloneURL repoPath w) as [H1 _].
  destruct (value (HarvestRepository h cloneURL repoPath w)) as [e|].
  - destruct (negb useHTTPS && strings.Contains e "ssh").
    + destruct (HarvestRepository_trace h (CloneURL repo) repoPath
                  (after (HarvestRepository h cloneURL repoPath w))) as [H2 _].
      unfold events at 1. simpl statPaths at 1.
      rewrite statPaths_app, H1. simpl. rewrite statPaths_app, H2. reflexivity.
    + unfold events at 1. simpl statPaths at 1. rewrite statPaths_app, H1. reflexivity.
  - unfold events at 1. simpl statPaths at 1. rewrite statPaths_app, H1. reflexivity.
Qed.

(** Every item gets its turn, whatever happened to the items before it. *)
Lemma harvestFrom_headers (rest : list Repository) :
  forall (i n : Z) (w : World),
    filter isHeader (events (harvestFrom h useHTTPS destDir i n rest w))
    = headersFrom i n rest.
Proof.
  induction rest as [|repo rest IH]; intros i n w; simpl; [reflexivity|].
  rewrite events_bind, filter_app, harvestItem_headers, IH. reflexivity.
Qed.

End CloneLoopLemmas.

(** ** The claims about cloning *)

(** C6. When the destination path exists, [HarvestRepository] returns the
    error [directory ... already exists] having done nothing but probe the
    path: the world is as it was and no clone was attempted, whatever the
    URL.  A clone is attempted only when the probe finds no such path, and
    then it is the first thing done after the probe. *)
Theorem existing_path_fails_without_clone {X : Collaborators}
  (h : Harvester) (url path : string) (w : World) :
  (os_Stat path w = true ->
   HarvestRepository h url path w
   = (Some ("directory " +++ path +++ " already exists"), w, [EvStat path])) /\
  (forall p u,
      In (EvPlainClone p u) (events (HarvestRepository h url path w)) ->
      os_Stat path w = false) /\
  (os_Stat path w = false ->
   exists t, events (HarvestRepository h url path w)
             = EvStat path :: EvPlainClone path url :: t
             /\ cloneURLs t = []).
Proof.
  split; [apply HarvestRepository_existing|]. split.
  - intros p u Hin. destruct (os_Stat path w) eqn:E; [|reflexivity].
    rewrite HarvestRepository_existing in Hin by assumption.
    destruct Hin as [Hin|[]]. discriminate.
  - intros E. destruct (HarvestRepository_absent h url path w E) as [t [Ht [_ [Hc _]]]].
    now exists t.
Qed.

Lemma existing_path_fails_without_clone_witness :
  HarvestRepository (X := demoWorld) (New true)
    "git@github.com:o/A.git" "/dst/A" ["/dst/A"]
  = (Some "directory /dst/A already exists", ["/dst/A"], [EvStat "/dst/A"]).
Proof.
  apply (proj1 (existing_path_fails_without_clone (X := demoWorld) (New true)
                  "git@github.com:o/A.git" "/dst/A" ["/dst/A"])).
  reflexivity.
Defined.

(** C8. With submodule recursion on, once the clone itself has succeeded
    [HarvestRepository] returns no error; when the submodules then fail, for
    whatever reason, the failure is printed as a warning and that is all. *)
Theorem submodule_failure_is_a_warning {X : Collaborators}
  (h : Harvester) (url path : string) (w w1 : World) (repo : GitRepository) :
  recursive h = true ->
  os_Stat path w = false ->
  git_PlainClone path url w = (Ok repo, w1) ->
  value (HarvestRepository h url path w) = None /\
  forall e,
    value (cultivateSubmodules h repo path w1) = Some e ->
    HarvestRepository h url path w =
    (None, after (cultivateSubmodules h repo path w1),
     EvStat path :: EvPlainClone path url ::
       events (cultivateSubmodules h repo path w1) ++
       [EvPrint ("  WARNING: failed to cultivate submodules: " +++ e +++ nl)]).
Proof.
  intros Hrec Hstat Hclone. rewrite HarvestRepository_run, Hstat, Hclone, Hrec.
  split; [reflexivity|]. intros e He. cbv zeta. now rewrite He.
Qed.

Lemma submodule_failure_is_a_warning_witness :
  HarvestRepository (X := demoWorld) (New true)
    "https://github.com/o/A.git" "/dst/A" []
  = (None, ["/dst/A"],
     [EvStat "/dst/A"; EvPlainClone "/dst/A" "https://github.com/o/A.git";
      EvWorktree; EvSubmodules;
      EvPrint ("  Cultivating 1 submodule(s)..." +++ nl);
      EvPrint ("    - vendor/lib" +++ nl);
      EvSubmoduleUpdate "vendor/lib";
      EvPrint ("  WARNING: failed to cultivate submodules: "
                 +++ "failed to cultivate submodule vendor/lib: "
                 +++ "authentication required" +++ nl)]).
Proof.
  apply (proj2 (submodule_failure_is_a_warning (X := demoWorld) (New true)
                  "https://github.com/o/A.git" "/dst/A" [] ["/dst/A"] "/dst/A"
                  eq_refl eq_refl eq_refl)
           "failed to cultivate submodule vendor/lib: authentication required").
  reflexivity.
Defined.

(** C7. In the clone loop, for every item: the item is harvested from its
    SSH URL, or from its HTTPS URL when HTTPS is asked for.  When SSH is in
    use and that attempt fails with an error whose text contains [ssh],
    [HarvestRepository] is called once more for the item, with its HTTPS URL
    and the same path, and that is the only retry; in every other case there
    is no second call.  A failure, of the first attempt or of the retry, is
    printed for the item and the loop goes on: every selected item gets its
    header, in order, whatever failed. *)
Theorem ssh_failure_retried_once_over_https {X : Collaborators}
  (h : Harvester) (useHTTPS : bool) (destDir : string) :
  (forall (i n : Z) (repo : Repository) (w : World),
      let repoPath := filepath_Join destDir (Name repo) in
      let cloneURL := if useHTTPS then CloneURL repo else SSHURL repo in
      let first := HarvestRepository h cloneURL repoPath w in
      let retry := HarvestRepository h (CloneURL repo) repoPath (after first) in
      let item := harvestItem h useHTTPS destDir i n repo w in
      (forall e,
          useHTTPS = false -> value first = Some e ->
          strings.Contains e "ssh" = true ->
          item =
          (tt, after retry,
           EvPrint (header i n repo) :: events first ++
             EvPrint ("  FAILED to harvest " +++ Name repo +++ ": " +++ e +++ nl) ::
             EvPrint ("  SSH failed, trying HTTPS for " +++ Name repo +++ "..." +++ nl) ::
             events retry ++
             [EvPrint
                match value retry with
                | Some e' =>
                    "  HTTPS also failed for " +++ Name repo +++ ": " +++ e' +++ nl
                | None =>
                    "  Successfully harvested " +++ Name repo +++ " via HTTPS" +++ nl
                end]) /\
          statPaths (events item) = [repoPath; repoPath] /\
          incl (cloneURLs (events retry)) [CloneURL repo]) /\
      (forall e,
          value first = Some e ->
          useHTTPS = true \/ strings.Contains e "ssh" = false ->
          item =
          (tt, after first,
           EvPrint (header i n repo) :: events first ++
             [EvPrint ("  FAILED to harvest " +++ Name repo +++ ": " +++ e +++ nl)]) /\
          statPaths (events item) = [repoPath]) /\
      (value first = None -> statPaths (events item) = [repoPath])) /\
  (forall (selectedRepos : list Repository) (w : World),
      filter isHeader (events (harvestLoop h useHTTPS destDir selectedRepos w))
      = headersFrom 0 (len selectedRepos) selectedRepos).
Proof.
  split; [|intros; apply harvestFrom_headers].
  intros i n repo w repoPath cloneURL first retry item.
  pose proof (harvestItem_run h useHTTPS destDir i n repo w) as Hrun.
  pose proof (harvestItem_statPaths h useHTTPS destDir i n repo w) as Hst.
  cbv zeta in Hrun, Hst.
  fold repoPath in Hrun, Hst. fold cloneURL in Hrun, Hst.
  fold first in Hrun, Hst. fold retry in Hrun. fold item in Hrun, Hst.
  split; [|split].
  - intros e Hssh He Hc. rewrite He in Hrun, Hst. rewrite Hssh, Hc in Hrun, Hst.
    simpl in Hrun, Hst. repeat split; auto.
    apply (HarvestRepository_trace h (CloneURL repo) repoPath (after first)).
  - intros e He Hor. rewrite He in Hrun, Hst.
    assert (Hcond : negb useHTTPS && strings.Contains e "ssh" = false)
      by (destruct Hor as [->| ->]; [reflexivity | apply andb_false_r]).
    rewrite Hcond in Hrun, Hst. auto.
  - intros He. now rewrite He in Hst.
Qed.

Lemma ssh_failure_retried_once_over_https_witness :
  statPaths (events (harvestItem (X := demoWorld) (New true) false "/dst" 0 3
                       repoA []))
  = ["/dst/A"; "/dst/A"] /\
  cloneURLs (events (harvestLoop (X := demoWorld) (New true) false "/dst"
                       scenario ["/dst/B"]))
  = ["git@github.com:o/A.git"; "https://github.com/o/A.git";
     "git@github.com:o/C.git"; "https://github.com/o/C.git"].
Proof.
  split; [|reflexivity].
  apply (proj1 (proj1 (ssh_failure_retried_once_over_https (X := demoWorld)
                         (New true) false "/dst") 0%Z 3%Z repoA [])
           "failed to harvest: ssh: handshake failed: unable to authenticate"
           eq_refl eq_refl eq_refl).
Defined.

(** * The rest of the program *)

(** ** More on the numbers and ranges of a line *)

Lemma append_nil_r (s : string) : s +++ "" = s.
Proof. induction s as [|c s IH]; simpl; [reflexivity | now rewrite IH]. Qed.

Lemma rangeLoop_spec (n : nat) :
  forall i acc,
    rangeLoop n i acc
    = acc ++ map (fun k => (i - 1 + Z.of_nat k)%Z) (seq 0 n).
Proof.
  induction n as [|n IH]; intros i acc.
  - simpl. now rewrite app_nil_r.
  - cbn [rangeLoop]. rewrite IH, <- app_assoc. f_equal.
    cbn [seq map app]. f_equal; [lia|].
    rewrite <- seq_shift, map_map. apply map_ext. intros k. lia.
Qed.

(** A part only appends to the indices found so far. *)
Lemma parsePart_acc (maxLen : Z) (indices : list Z) (part : string) :
  parsePart maxLen indices part = indices ++ parsePart maxLen [] part.
Proof.
  unfold parsePart.
  destruct (strings.Contains (strings.TrimSpace part) "-").
  - destruct (List.length _ =? 2)%nat; [|now rewrite app_nil_r].
    destruct (strconv.Atoi _) as [start|]; [|now rewrite app_nil_r].
    destruct (strconv.Atoi _) as [end_|]; [|now rewrite app_nil_r].
    destruct (_ && _)%bool; [|now rewrite app_nil_r].
    now rewrite !rangeLoop_spec.
  - destruct (strconv.Atoi _) as [num|]; [|now rewrite app_nil_r].
    destruct (_ && _)%bool; [reflexivity | now rewrite app_nil_r].
Qed.

Lemma parseParts_flat_map (maxLen : Z) (parts : list string) :
  forall indices,
    fold_left (parsePart maxLen) parts indices
    = indices ++ flat_map (parsePart maxLen []) parts.
Proof.
  induction parts as [|p parts IH]; intros indices; simpl.
  - now rewrite app_nil_r.
  - rewrite IH, parsePart_acc, <- app_assoc. reflexivity.
Qed.

Lemma parsePart_in_range (maxLen : Z) (part : string) :
  Forall (fun idx => (0 <= idx < maxLen)%Z) (parsePart maxLen [] part).
Proof.
  unfold parsePart.
  destruct (strings.Contains (strings.TrimSpace part) "-").
  - destruct (List.length _ =? 2)%nat; [|constructor].
    destruct (strconv.Atoi _) as [start|]; [|constructor].
    destruct (strconv.Atoi _) as [end_|]; [|constructor].
    destruct (_ && _)%bool eqn:E; [|constructor].
    rewrite !andb_true_iff in E. destruct E as [[[[E1 E2] E3] E4] E5].
    apply Z.ltb_lt in E1, E2. apply Z.leb_le in E3, E4, E5.
    rewrite rangeLoop_spec. simpl. apply Forall_forall. intros idx Hin.
    apply in_map_iff in Hin. destruct Hin as [k [<- Hk]].
    apply in_seq in Hk. lia.
  - destruct (strconv.Atoi _) as [num|]; [|constructor].
    destruct (_ && _)%bool eqn:E; [|constructor].
    apply andb_true_iff in E. destruct E as [E1 E2].
    apply Z.ltb_lt in E1. apply Z.leb_le in E2.
    repeat constructor; lia.
Qed.

(** X1. Whatever the line, every index [parseSelection] returns designates
    an item of the collection; on an empty collection it returns nothing. *)
Theorem parseSelection_in_range (input : string) (repos : list Repository) :
  Forall (fun idx =>
            (0 <= idx < len repos)%Z /\
            exists r, nth_error repos (Z.to_nat idx) = Some r)
         (parseSelection input (len repos)) /\
  (repos = [] -> parseSelection input (len repos) = []).
Proof.
  assert (H : Forall (fun idx => (0 <= idx < len repos)%Z)
                (parseSelection input (len repos))).
  { unfold parseSelection. rewrite parseParts_flat_map. simpl.
    apply Forall_flat_map. apply Forall_forall. intros p _.
    apply parsePart_in_range. }
  split.
  - eapply Forall_impl; [|exact H]. intros idx Hidx. split; [exact Hidx|].
    destruct (nth_error repos (Z.to_nat idx)) as [r|] eqn:E; [eauto|].
    apply nth_error_None in E. unfold len in Hidx. lia.
  - intros ->. destruct (parseSelection input (len [])) as [|idx l]; [reflexivity|].
    apply Forall_inv in H. unfold len in H. simpl in H. lia.
Qed.

(** *** Splitting on one byte *)

Lemma prefix_nil (s : string) : String.prefix "" s = true.
Proof. now destruct s. Qed.

Lemma prefix_byte (c d : ascii) (s : string) :
  String.prefix (String c "") (String d s) = Ascii.eqb c d.
Proof.
  simpl. destruct (ascii_dec c d) as [->|Hne].
  - now rewrite prefix_nil, Ascii.eqb_refl.
  - symmetry. now apply Ascii.eqb_neq.
Qed.

Lemma revString_revString (s : string) :
  forall acc1 acc2,
    strings.revString acc2 (strings.revString acc1 s)
    = strings.revString (s +++ acc2) acc1.
Proof.
  induction s as [|c s IH]; intros acc1 acc2; simpl; [reflexivity|].
  now rewrite IH.
Qed.

Lemma splitFrom_piece (c : ascii) (s : string) :
  forall cur rest,
    noByte c s = true ->
    strings.splitFrom (String c "") 0 cur (s +++ rest)
    = strings.splitFrom (String c "") 0 (strings.revString cur s) rest.
Proof.
  induction s as [|d s IH]; intros cur rest H; [reflexivity|].
  cbn [noByte] in H. apply andb_true_iff in H. destruct H as [Hd Hs].
  cbn [append strings.splitFrom]. rewrite prefix_byte.
  apply negb_true_iff in Hd. rewrite Hd. now rewrite IH.
Qed.

(** The piece before the first separator, then the pieces of what follows. *)
Lemma Split_first (c : ascii) (s rest : string) :
  noByte c s = true ->
  strings.Split (s +++ String c rest) (String c "")
  = s :: strings.Split rest (String c "").
Proof.
  intros H. unfold strings.Split. rewrite splitFrom_piece by assumption.
  cbn [strings.splitFrom]. rewrite prefix_byte, Ascii.eqb_refl.
  rewrite (revString_revString s "" ""), append_nil_r. reflexivity.
Qed.

Lemma Split_none (c : ascii) (s : string) :
  noByte c s = true -> strings.Split s (String c "") = [s].
Proof.
  intros H. unfold strings.Split.
  rewrite <- (append_nil_r s) at 1. rewrite splitFrom_piece by assumption.
  cbn [strings.splitFrom].
  now rewrite (revString_revString s "" ""), append_nil_r.
Qed.

(** X2. The parts of a line are read from left to right, each on its own:
    the indices of [first,rest] are those of [first] followed by those of
    [rest]. *)
Theorem parseSelection_comma (first rest : string) (maxLen : Z) :
  noByte "," first = true ->
  parseSelection (first +++ "," +++ rest) maxLen
  = parseSelection first maxLen ++ parseSelection rest maxLen.
Proof.
  intros H. unfold parseSelection.
  change ("," +++ rest) with (String "," rest).
  rewrite (Split_first ","%char first rest H), (Split_none ","%char first H).
  cbn [fold_left]. rewrite parseParts_flat_map, (parsePart_acc maxLen []).
  rewrite (parseParts_flat_map maxLen _ []). reflexivity.
Qed.

Lemma parseSelection_comma_witness :
  parseSelection ("2-3" +++ "," +++ "1,x") 5 = [1; 2]%Z ++ [0]%Z.
Proof.
  now rewrite (parseSelection_comma "2-3" "1,x" 5 eq_refl).
Defined.

(** *** Numerals *)

Lemma digit_byte (c : ascii) (d : Z) :
  strconv.digit c = Some d ->
  (0 <= d <= 9)%Z /\ strings.isSpace c = false /\
  Ascii.eqb c "-" = false /\ Ascii.eqb c "+" = false /\
  Ascii.eqb "-" c = false /\ Ascii.eqb "," c = false.
Proof.
  unfold strconv.digit, strings.isSpace. intros H.
  destruct (48 <=? nat_of_ascii c)%nat eqn:E1; [|discriminate].
  destruct (nat_of_ascii c <=? 57)%nat eqn:E2; [|discriminate].
  apply Nat.leb_le in E1, E2. simpl in H. injection H as <-.
  split; [lia|]. split.
  { apply orb_false_iff. split.
    - apply andb_false_iff. right. apply Nat.leb_gt. lia.
    - apply Nat.eqb_neq. lia. }
  repeat split; apply Ascii.eqb_neq; intros Hc; subst c;
    change (nat_of_ascii "-") with 45%nat in *;
    change (nat_of_ascii "+") with 43%nat in *;
    change (nat_of_ascii ",") with 44%nat in *; lia.
Qed.

Lemma onlyDigits_bytes (s : string) :
  onlyDigits s = true ->
  noSpace s = true /\ noByte "-" s = true /\ noByte "," s = true.
Proof.
  induction s as [|c s IH]; [now repeat split|]. cbn [onlyDigits noSpace noByte].
  destruct (strconv.digit c) as [d|] eqn:E; [|discriminate].
  intros H. destruct (IH H) as [H1 [H2 H3]].
  destruct (digit_byte c d E) as [_ [Hs [_ [_ [Hm Hc]]]]].
  now rewrite Hs, Hm, Hc, H1, H2, H3.
Qed.

Lemma noSpace_app (a b : string) :
  noSpace (a +++ b) = noSpace a && noSpace b.
Proof.
  induction a as [|c a IH]; [reflexivity|]. cbn [append noSpace].
  now rewrite IH, andb_assoc.
Qed.

Lemma noByte_app (c : ascii) (a b : string) :
  noByte c (a +++ b) = noByte c a && noByte c b.
Proof.
  induction a as [|d a IH]; [reflexivity|]. cbn [append noByte].
  now rewrite IH, andb_assoc.
Qed.

(** Text without white space is left as it is. *)
Lemma TrimSpace_noSpace (s : string) :
  noSpace s = true -> strings.TrimSpace s = s.
Proof.
  intros H. unfold strings.TrimSpace.
  assert (HL : strings.TrimLeft s = s).
  { destruct s as [|c s]; [reflexivity|]. cbn [noSpace] in H. simpl.
    apply andb_true_iff in H. destruct H as [H _].
    apply negb_true_iff in H. now rewrite H. }
  rewrite HL. clear HL. induction s as [|c s IH]; [reflexivity|].
  cbn [noSpace] in H. apply andb_true_iff in H. destruct H as [Hc Hs].
  apply negb_true_iff in Hc. cbn [strings.TrimRight]. rewrite (IH Hs), Hc.
  now destruct s.
Qed.

Lemma Contains_noByte (c : ascii) (s : string) :
  noByte c s = true -> strings.Contains s (String c "") = false.
Proof.
  induction s as [|d s IH]; [reflexivity|]. cbn [noByte]. intros H.
  apply andb_true_iff in H. destruct H as [Hd Hs].
  rewrite Contains_unfold, prefix_byte. apply negb_true_iff in Hd.
  rewrite Hd. now apply IH.
Qed.

Lemma digits_nonneg (s : string) :
  forall acc v, (0 <= acc)%Z -> strconv.digits acc s = Some v -> (acc <= v)%Z.
Proof.
  induction s as [|c s IH]; intros acc v Hacc H; simpl in H.
  - injection H as <-. lia.
  - destruct (strconv.digit c) as [d|] eqn:E; [|discriminate].
    destruct (digit_byte c d E) as [Hd _].
    apply IH in H; lia.
Qed.

Lemma onlyDigits_digits (s : string) :
  onlyDigits s = true -> forall acc, exists v, strconv.digits acc s = Some v.
Proof.
  induction s as [|c s IH]; intros H acc; simpl in *; [eauto|].
  destruct (strconv.digit c); [now apply IH | discriminate].
Qed.

(** [Atoi] on a numeral: its value, unless it does not fit an [int]. *)
Lemma Atoi_numeral (s : string) (v : Z) :
  isNumeral s = true ->
  strconv.digits 0 s = Some v ->
  strconv.Atoi s = if (v <=? 2 ^ 63 - 1)%Z then Some v else None.
Proof.
  intros Hn Hv. destruct s as [|c s]; [discriminate|].
  cbn [isNumeral onlyDigits] in Hn.
  destruct (strconv.digit c) as [d|] eqn:E; [|discriminate].
  destruct (digit_byte c d E) as [_ [_ [Hm [Hp _]]]].
  pose proof (digits_nonneg _ _ _ (Z.le_refl 0) Hv) as Hpos.
  unfold strconv.Atoi. rewrite Hm, Hp. cbn [orb]. rewrite Hv.
  unfold strconv.inInt.
  replace (- 2 ^ 63 <=? v)%Z with true by (symmetry; apply Z.leb_le; lia).
  reflexivity.
Qed.

(** X3. A numeral, leading zeros allowed, selects the index before its
    value when the value is between 1 and the size of the collection, and
    nothing otherwise; a numeral too large for an [int] selects nothing. *)
Theorem parseSelection_numeral (s : string) (v maxLen : Z) :
  isNumeral s = true ->
  strconv.digits 0 s = Some v ->
  (maxLen <= 2 ^ 63 - 1)%Z ->
  parseSelection s maxLen
  = if ((0 <? v) && (v <=? maxLen))%Z then [(v - 1)%Z] else [].
Proof.
  intros Hn Hv Hmax.
  assert (Hd : onlyDigits s = true) by (destruct s; [discriminate | exact Hn]).
  destruct (onlyDigits_bytes s Hd) as [Hsp [Hm Hc]].
  unfold parseSelection. rewrite (Split_none ","%char s Hc). cbn [fold_left].
  unfold parsePart. rewrite (TrimSpace_noSpace s Hsp).
  rewrite (Contains_noByte "-"%char s Hm), (Atoi_numeral s v Hn Hv).
  destruct (v <=? 2 ^ 63 - 1)%Z eqn:E; [reflexivity|].
  apply Z.leb_gt in E.
  replace (v <=? maxLen)%Z with false by (symmetry; apply Z.leb_gt; lia).
  now rewrite andb_false_r.
Qed.

Lemma parseSelection_numeral_witness :
  parseSelection "0042" 50 = [41%Z] /\
  parseSelection "99999999999999999999" 50 = [].
Proof.
  split.
  - apply (parseSelection_numeral "0042" 42 50 eq_refl eq_refl). lia.
  - apply (parseSelection_numeral "99999999999999999999" 99999999999999999999 50
             eq_refl eq_refl). lia.
Defined.

Lemma range_condition (first last maxLen : Z) :
  ((0 <? first) && (0 <? last) && (first <=? maxLen) && (last <=? maxLen)
   && (first <=? last))%Z
  = ((0 <? first) && (first <=? last) && (last <=? maxLen))%Z.
Proof.
  destruct (Z.ltb_spec 0 first), (Z.ltb_spec 0 last), (Z.leb_spec first maxLen),
    (Z.leb_spec last maxLen), (Z.leb_spec first last);
    simpl; try reflexivity; lia.
Qed.

(** X4. A range [first-last] of two numerals selects the indices before
    [first], ..., [last], in ascending order, when
    [1 <= first <= last <= size], and nothing otherwise: a range that runs
    backwards, starts at 0 or ends past the collection is dropped whole. *)
Theorem parseSelection_range_token (a b : string) (va vb maxLen : Z) :
  isNumeral a = true -> isNumeral b = true ->
  strconv.digits 0 a = Some va -> strconv.digits 0 b = Some vb ->
  (maxLen <= 2 ^ 63 - 1)%Z ->
  parseSelection (a +++ "-" +++ b) maxLen
  = if ((0 <? va) && (va <=? vb) && (vb <=? maxLen))%Z
    then rangeIndices va vb else [].
Proof.
  intros Ha Hb Hva Hvb Hmax.
  assert (Hda : onlyDigits a = true) by (destruct a; [discriminate | exact Ha]).
  assert (Hdb : onlyDigits b = true) by (destruct b; [discriminate | exact Hb]).
  destruct (onlyDigits_bytes a Hda) as [Hsa [Hma Hca]].
  destruct (onlyDigits_bytes b Hdb) as [Hsb [Hmb Hcb]].
  pose proof (digits_nonneg _ _ _ (Z.le_refl 0) Hva) as Hpa.
  pose proof (digits_nonneg _ _ _ (Z.le_refl 0) Hvb) as Hpb.
  change ("-" +++ b) with (String "-" b).
  assert (Hc : noByte "," (a +++ String "-" b) = true)
    by (rewrite noByte_app; cbn [noByte]; now rewrite Hca, Hcb).
  assert (Hs : noSpace (a +++ String "-" b) = true)
    by (rewrite noSpace_app; cbn [noSpace]; now rewrite Hsa, Hsb).
  unfold parseSelection. rewrite (Split_none ","%char _ Hc). cbn [fold_left].
  unfold parsePart. rewrite (TrimSpace_noSpace _ Hs).
  replace (strings.Contains (a +++ String "-" b) "-") with true
    by (symmetry; apply Contains_spec; now exists a, b).
  rewrite (Split_first "-"%char a b Hma), (Split_none "-"%char b Hmb).
  cbn [List.length Nat.eqb nth].
  rewrite (TrimSpace_noSpace a Hsa), (TrimSpace_noSpace b Hsb).
  rewrite (Atoi_numeral a va Ha Hva), (Atoi_numeral b vb Hb Hvb).
  assert (Hout : (2 ^ 63 - 1 < va \/ 2 ^ 63 - 1 < vb)%Z ->
                 ((0 <? va) && (va <=? vb) && (vb <=? maxLen))%Z = false).
  { intros Hbig.
    destruct (Z.ltb_spec 0 va), (Z.leb_spec va vb), (Z.leb_spec vb maxLen);
      simpl; try reflexivity; lia. }
  destruct (Z.leb_spec va (2 ^ 63 - 1)) as [Ea|Ea];
    destruct (Z.leb_spec vb (2 ^ 63 - 1)) as [Eb|Eb];
    try (rewrite Hout by lia; reflexivity).
  rewrite range_condition, rangeLoop_spec.
  destruct (_ && _)%bool; reflexivity.
Qed.

Lemma parseSelection_range_token_witness :
  parseSelection ("3" +++ "-" +++ "06") 9 = [2; 3; 4; 5]%Z /\
  parseSelection ("6" +++ "-" +++ "3") 9 = [].
Proof.
  split.
  - apply (parseSelection_range_token "3" "06" 3 6 9 eq_refl eq_refl eq_refl eq_refl).
    lia.
  - apply (parseSelection_range_token "6" "3" 6 3 9 eq_refl eq_refl eq_refl eq_refl).
    lia.
Defined.

(** ** More on the prompt loop *)

(** Filtering keeps the names distinct. *)
Lemma filter_names_distinct (keep : Repository -> bool) (repos : list Repository) :
  NoDup (map Name repos) -> NoDup (map Name (filter keep repos)).
Proof.
  induction repos as [|r repos IH]; simpl; intros H; [constructor|].
  apply NoDup_cons_iff in H. destruct H as [Hr Hrest].
  destruct (keep r); simpl; [|now apply IH].
  constructor; [|now apply IH].
  intros Hin. apply Hr. apply in_map_iff in Hin.
  destruct Hin as [y [Hy Hin]]. apply filter_In in Hin.
  apply in_map_iff. exists y. tauto.
Qed.

Lemma selectLoop_NoDup (stdin : list string) :
  forall repos selected,
    NoDup (map Name repos) -> NoDup (map Name selected) ->
    NoDup (map Name (selectLoop repos selected stdin)).
Proof.
  induction stdin as [|line rest IH]; intros repos selected Hr Hs; simpl; auto.
  unfold loopBody.
  destruct (String.eqb (strings.TrimSpace line) ""); auto.
  destruct (String.eqb (strings.TrimSpace line) "all"); auto.
  destruct (String.eqb (strings.TrimSpace line) "dev").
  { rewrite selectDevRepositories_filter. now apply filter_names_distinct. }
  destruct (tryLanguageFilter repos (strings.TrimSpace line)) as [|r m] eqn:E.
  - apply IH; [exact Hr | now apply addIndices_NoDup].
  - apply IH; [|constructor].
    rewrite <- E, tryLanguageFilter_filter. now apply filter_names_distinct.
Qed.

(** X5. Whatever is typed, [selectRepositories] returns items of the
    collection it was given, and no two of them share a name when no two
    candidates do. *)
Theorem selection_is_drawn_from_candidates (repos : list Repository)
  (stdin : list string) :
  NoDup (map Name repos) ->
  incl (selectRepositories repos stdin) repos /\
  NoDup (map Name (selectRepositories repos stdin)).
Proof.
  intros H. split.
  - apply selectLoop_incl. intros x [].
  - apply selectLoop_NoDup; [exact H | constructor].
Qed.

Lemma selection_is_drawn_from_candidates_witness :
  NoDup (map Name (selectRepositories scenario
                     [ln "1,3"; ln "go"; ln "2,1,2"; ln ""])).
Proof.
  apply (selection_is_drawn_from_candidates scenario).
  repeat constructor; simpl; intuition discriminate.
Defined.

(** X6. A blank line ends the selection: what was typed after it is not
    read, and the end of the input does the same as a blank line. *)
Theorem blank_line_ends_selection (repos selected : list Repository)
  (before after_ : list string) (line : string) :
  strings.TrimSpace line = "" ->
  selectLoop repos selected (before ++ line :: after_)
  = selectLoop repos selected before.
Proof.
  intros Hblank. revert repos selected.
  induction before as [|l before IH]; intros repos selected.
  - simpl. unfold loopBody. now rewrite Hblank.
  - simpl. destruct (loopBody repos selected l); auto.
Qed.

Lemma blank_line_ends_selection_witness :
  selectLoop scenario [] ([ln "3"] ++ ln "  " :: [ln "all"]) = [repoC].
Proof.
  now rewrite (blank_line_ends_selection scenario [] [ln "3"] [ln "all"] (ln "  ")
                 eq_refl).
Defined.

(** *** Lines that are not understood *)











(** ** Filters *)

Lemma filter_filter {A : Type} (p : A -> bool) (l : list A) :
  filter p (filter p l) = filter p l.
Proof.
  induction l as [|x l IH]; simpl; [reflexivity|].
  destruct (p x) eqn:E; simpl; [now rewrite E, IH | exact IH].
Qed.

Lemma filter_comm {A : Type} (p q : A -> bool) (l : list A) :
  filter p (filter q l) = filter q (filter p l).
Proof.
  induction l as [|x l IH]; simpl; [reflexivity|].
  destruct (p x) eqn:Ep; destruct (q x) eqn:Eq; simpl;
    rewrite ?Ep, ?Eq, IH; reflexivity.
Qed.

Lemma filter_none {A : Type} (p : A -> bool) (l : list A) :
  (forall x, In x l -> p x = false) -> filter p l = [].
Proof.
  induction l as [|x l IH]; simpl; intros H; [reflexivity|].
  rewrite (H x) by now left. apply IH. intros y Hy. apply H. now right.
Qed.


(** X9. Typing a language at the prompt does what [--language] does: the
    selection goes on with [filterByLanguage] of the candidates; and typing
    the same language again changes nothing more. *)
Theorem language_line_is_the_prefilter (repos selected : list Repository)
  (line : string) (rest : list string) :
  let input := strings.TrimSpace line in
  input <> "" -> input <> "all" -> input <> "dev" ->
  (exists r, In r repos /\ equalFold (Language r) input) ->
  selectLoop repos selected (line :: rest)
  = selectRepositories (filterByLanguage repos input) rest /\
  selectLoop repos selected (line :: line :: rest)
  = selectLoop repos selected (line :: rest).
Proof.
  intros input H1 H2 H3 Hex. subst input.
  assert (Heq : tryLanguageFilter repos (strings.TrimSpace line)
                = filterByLanguage repos (strings.TrimSpace line))
    by now rewrite tryLanguageFilter_filter, filterByLanguage_filter.
  rewrite !selectLoop_restart by assumption. rewrite <- Heq. split; [reflexivity|].
  unfold selectRepositories at 1. rewrite selectLoop_restart; try assumption.
  - now rewrite !tryLanguageFilter_filter, filter_filter.
  - destruct Hex as [r [Hin Hr]]. exists r. split; [|exact Hr].
    rewrite tryLanguageFilter_filter. apply filter_In. split; [exact Hin|].
    now apply languageIs_spec.
Qed.

Lemma language_line_is_the_prefilter_witness :
  selectLoop scenario [] (ln "Go" :: ln "Go" :: [ln "2"; ln ""]) = [repoC].
Proof.
  rewrite (proj2 (language_line_is_the_prefilter scenario [] (ln "Go")
                    [ln "2"; ln ""]
                    ltac:(discriminate) ltac:(discriminate) ltac:(discriminate)
                    ltac:(exists repoA; split; [now left | reflexivity]))).
  reflexivity.
Defined.

(** X10. The [dev] heuristic and the language filter can be applied in
    either order; [dev] applied twice is [dev]; and after a filter on [html]
    or [css], in any case, [dev] selects nothing. *)
Theorem dev_and_language_filter (repos : list Repository) (language : string) :
  selectDevRepositories (filterByLanguage repos language)
  = filterByLanguage (selectDevRepositories repos) language /\
  selectDevRepositories (selectDevRepositories repos)
  = selectDevRepositories repos /\
  (equalFold language "html" \/ equalFold language "css" ->
   selectDevRepositories (filterByLanguage repos language) = []).
Proof.
  rewrite !selectDevRepositories_filter, !filterByLanguage_filter.
  split; [apply filter_comm|]. split; [apply filter_filter|].
  intros H. apply filter_none. intros r Hr. apply filter_In in Hr.
  destruct Hr as [_ Hr]. apply languageIs_spec in Hr.
  destruct (isDevRepo r) eqn:E; [|reflexivity].
  apply isDevRepo_spec in E. exfalso. apply E. unfold excluded, equalFold in *.
  right. destruct H as [H|H]; [left | right]; congruence.
Qed.

Lemma dev_and_language_filter_witness :
  selectDevRepositories (filterByLanguage scenario "HTML") = [].
Proof.
  apply (proj2 (proj2 (dev_and_language_filter scenario "HTML"))).
  left. reflexivity.
Defined.

(** *** The order of the selection *)

Lemma nth_error_Name_inj (repos : list Repository) (i j : nat) (r r' : Repository) :
  NoDup (map Name repos) ->
  nth_error repos i = Some r -> nth_error repos j = Some r' ->
  Name r = Name r' -> i = j.
Proof.
  intros Hnd Hi Hj Hn.
  assert (Hi' : nth_error (map Name repos) i = Some (Name r))
    by now rewrite nth_error_map, Hi.
  assert (Hj' : nth_error (map Name repos) j = Some (Name r'))
    by now rewrite nth_error_map, Hj.
  eapply NoDup_nth_error; eauto.
  - apply nth_error_Some. congruence.
  - congruence.
Qed.

Lemma addIndices_fresh (repos : list Repository) (indices : list Z) :
  NoDup (map Name repos) ->
  forall selected,
    NoDup indices ->
    Forall (fun idx => (0 <= idx < len repos)%Z) indices ->
    (forall idx r, In idx indices -> nth_error repos (Z.to_nat idx) = Some r ->
                   ~ In (Name r) (map Name selected)) ->
    map Some (addIndices repos selected indices)
    = map Some selected ++ map (fun idx => nth_error repos (Z.to_nat idx)) indices.
Proof.
  intros Hnd. unfold addIndices.
  induction indices as [|idx l IH]; intros selected Hi Hr Hfresh.
  - simpl. now rewrite app_nil_r.
  - apply NoDup_cons_iff in Hi. destruct Hi as [Hidx Hl].
    pose proof (Forall_inv Hr) as Hrange. cbv beta in Hrange.
    apply Forall_inv_tail in Hr.
    destruct (nth_error repos (Z.to_nat idx)) as [r|] eqn:E;
      [|apply nth_error_None in E; unfold len in Hrange; lia].
    assert (Hadd : addIndex repos selected idx = selected ++ [r]).
    { unfold addIndex. rewrite E.
      replace ((0 <=? idx) && (idx <? len repos))%Z with true
        by (symmetry; apply andb_true_iff; split;
            [apply Z.leb_le | apply Z.ltb_lt]; lia).
      destruct (alreadySelected selected (Name r)) eqn:Ha; [|reflexivity].
      apply alreadySelected_spec in Ha. exfalso.
      apply (Hfresh idx r); [now left | exact E | exact Ha]. }
    cbn [fold_left map]. rewrite Hadd, IH; auto.
    + rewrite map_app, <- app_assoc, E. reflexivity.
    + intros idx' r' Hin' E' Hname. rewrite map_app in Hname.
      apply in_app_or in Hname. destruct Hname as [Hname|[Hname|[]]].
      * apply (Hfresh idx' r'); [now right | exact E' | exact Hname].
      * assert (Z.to_nat idx = Z.to_nat idx')
          by (eapply nth_error_Name_inj; eauto).
        rewrite Forall_forall in Hr. specialize (Hr idx' Hin'). cbv beta in Hr.
        assert (idx = idx') by lia. congruence.
Qed.

(** X11. The selection keeps the order in which the items were entered,
    not the order of the listing: on candidates with distinct names,
    distinct valid indices entered on an empty selection give their items in
    the order of the indices. *)
Theorem selection_keeps_entry_order (repos : list Repository) (indices : list Z) :
  NoDup (map Name repos) ->
  NoDup indices ->
  Forall (fun idx => (0 <= idx < len repos)%Z) indices ->
  map Some (addIndices repos [] indices)
  = map (fun idx => nth_error repos (Z.to_nat idx)) indices.
Proof.
  intros Hnd Hi Hr.
  rewrite (addIndices_fresh repos indices Hnd [] Hi Hr); [reflexivity|].
  intros idx r _ _ [].
Qed.

Lemma selection_keeps_entry_order_witness :
  selectRepositories scenario [ln "3,1"; ln ""] = [repoC; repoA] /\
  map Some (addIndices scenario [] [2; 0]%Z) = [Some repoC; Some repoA].
Proof.
  split; [reflexivity|].
  apply (selection_keeps_entry_order scenario [2; 0]%Z).
  - repeat constructor; simpl; intuition discriminate.
  - repeat constructor; simpl; intuition discriminate.
  - repeat constructor; unfold len; simpl; lia.
Defined.

(** ** More on the harvester *)

Lemma updatedNames_app (t1 t2 : list Event) :
  updatedNames (t1 ++ t2) = updatedNames t1 ++ updatedNames t2.
Proof.
  induction t1 as [|e t1 IH]; simpl; [reflexivity|].
  destruct e; simpl; now rewrite IH.
Qed.

(** X12. [HarvestRepository] succeeds exactly when the path was absent
    and the clone went through, whatever the submodules do; when the clone
    fails the error is [failed to harvest: ] followed by the cause, and the
    submodules are not looked at. *)
Theorem HarvestRepository_succeeds_iff {X : Collaborators} (h : Harvester) (url path : string)
  (w : World) :
  (value (HarvestRepository h url path w) = None
   <-> os_Stat path w = false /\
       exists repo w1, git_PlainClone path url w = (Ok repo, w1)) /\
  (forall cause w1,
      os_Stat path w = false ->
      git_PlainClone path url w = (Err cause, w1) ->
      HarvestRepository h url path w
      = (Some ("failed to harvest: " +++ cause), w1,
         [EvStat path; EvPlainClone path url])).
Proof.
  split.
  - rewrite HarvestRepository_run. destruct (os_Stat path w).
    + split; [discriminate | intros [H _]; discriminate].
    + destruct (git_PlainClone path url w) as [[repo|e] w1].
      * split; [intros _; split; eauto|]. intros _.
        now destruct (recursive h).
      * split; [discriminate | intros [_ [repo [w2 H]]]; discriminate].
  - intros cause w1 Hs Hc. now rewrite HarvestRepository_run, Hs, Hc.
Qed.

Lemma HarvestRepository_succeeds_iff_witness :
  HarvestRepository (X := demoWorld) (New true)
    "git@github.com:o/A.git" "/dst/A" []
  = (Some "failed to harvest: ssh: handshake failed: unable to authenticate",
     [], [EvStat "/dst/A"; EvPlainClone "/dst/A" "git@github.com:o/A.git"]).
Proof.
  apply (proj2 (HarvestRepository_succeeds_iff (X := demoWorld) (New true)
                  "git@github.com:o/A.git" "/dst/A" [])
           "ssh: handshake failed: unable to authenticate" []);
    reflexivity.
Defined.

(** X13. Without submodule recursion [HarvestRepository] does nothing
    but probe the path and, when it is absent, clone: no worktree is opened,
    no submodule is listed or updated, nothing is printed. *)
Theorem HarvestRepository_without_recursion {X : Collaborators} (h : Harvester) (url path : string)
  (w : World) :
  recursive h = false ->
  events (HarvestRepository h url path w)
  = (if os_Stat path w then [EvStat path]
     else [EvStat path; EvPlainClone path url]) /\
  after (HarvestRepository h url path w)
  = (if os_Stat path w then w else snd (git_PlainClone path url w)).
Proof.
  intros Hr. rewrite HarvestRepository_run, Hr.
  destruct (os_Stat path w); [now split|].
  destruct (git_PlainClone path url w) as [[repo|e] w1]; now split.
Qed.

Lemma HarvestRepository_without_recursion_witness :
  events (HarvestRepository (X := demoWorld) (New false)
            "https://github.com/o/A.git" "/dst/A" [])
  = [EvStat "/dst/A"; EvPlainClone "/dst/A" "https://github.com/o/A.git"].
Proof.
  apply (proj1 (HarvestRepository_without_recursion (X := demoWorld) (New false)
                  "https://github.com/o/A.git" "/dst/A" [] eq_refl)).
Defined.

Lemma updateLoop_run {X : Collaborators} (s : GitSubmodule)
  (rest : list GitSubmodule) (w : World) :
  updateLoop (s :: rest) w =
  match submodule_Update s w with
  | (Some cause, w1) =>
      (Some ("failed to cultivate submodule " +++ submodule_Name s +++ ": "
               +++ cause), w1,
       [EvPrint ("    - " +++ submodule_Name s +++ nl);
        EvSubmoduleUpdate (submodule_Name s)])
  | (None, w1) =>
      let r := updateLoop rest w1 in
      (value r, after r,
       EvPrint ("    - " +++ submodule_Name s +++ nl) ::
       EvSubmoduleUpdate (submodule_Name s) :: events r)
  end.
Proof.
  cbn [updateLoop]. unfold bind, Printf, emit, call, ret.
  destruct (submodule_Update s w) as [[cause|] w1]; [reflexivity|].
  now destruct (updateLoop rest w1) as [[v w2] t].
Qed.

Lemma cultivateSubmodules_run {X : Collaborators} (h : Harvester)
  (repo : GitRepository) (repoPath : string) (w : World) :
  cultivateSubmodules h repo repoPath w =
  match repo_Worktree repo w with
  | (Err cause, w1) => (Some cause, w1, [EvWorktree])
  | (Ok worktree, w1) =>
      match worktree_Submodules worktree w1 with
      | (Err cause, w2) => (Some cause, w2, [EvWorktree; EvSubmodules])
      | (Ok submodules, w2) =>
          if (len submodules =? 0)%Z
          then (None, w2, [EvWorktree; EvSubmodules])
          else
            let r := updateLoop submodules w2 in
            (value r, after r,
             EvWorktree :: EvSubmodules ::
             EvPrint ("  Cultivating " +++ fmt_d (len submodules)
                        +++ " submodule(s)..." +++ nl) :: events r)
      end
  end.
Proof.
  unfold cultivateSubmodules, bind, Printf, emit, call, ret.
  destruct (repo_Worktree repo w) as [[worktree|cause] w1]; [|reflexivity].
  destruct (worktree_Submodules worktree w1) as [[submodules|cause] w2];
    [|reflexivity].
  destruct (len submodules =? 0)%Z; [reflexivity|].
  now destruct (updateLoop submodules w2) as [[v w3] t].
Qed.

Lemma updateLoop_prefix {X : Collaborators} (submodules : list GitSubmodule) :
  forall w,
    exists k,
      updatedNames (events (updateLoop submodules w))
      = firstn k (map submodule_Name submodules) /\
      match value (updateLoop submodules w) with
      | None => k = List.length submodules
      | Some e =>
          exists name cause,
            nth_error (map submodule_Name submodules) (k - 1) = Some name /\
            (0 < k)%nat /\
            e = "failed to cultivate submodule " +++ name +++ ": " +++ cause
      end.
Proof.
  induction submodules as [|s rest IH]; intros w.
  - exists 0%nat. now split.
  - rewrite updateLoop_run.
    destruct (submodule_Update s w) as [[cause|] w1].
    + exists 1%nat. split; [reflexivity|].
      exists (submodule_Name s), cause. repeat split. lia.
    + destruct (IH w1) as [k [Hk Hv]]. exists (S k). cbv zeta.
      unfold events at 1, value at 1. cbn [fst snd updatedNames map firstn].
      split; [now rewrite Hk|].
      destruct (value (updateLoop rest w1)) as [e|].
      * destruct Hv as [name [c [Hn [Hpos He]]]]. exists name, c.
        repeat split; [|lia | exact He].
        destruct k; [lia|]. simpl in *. now rewrite Nat.sub_0_r in Hn.
      * simpl. now rewrite Hv.
Qed.

(** X14. The submodules are updated in the order they are listed and the
    first failure stops the loop: the updates started are a prefix of the
    list, the whole list when there is no error, and otherwise the error
    names the last one started.  With no submodule, or when the worktree
    cannot be opened, nothing is updated and nothing is printed. *)
Theorem submodules_stop_at_first_failure {X : Collaborators} (h : Harvester)
  (repo : GitRepository) (repoPath : string) (w : World) :
  (forall worktree w1 submodules w2,
      repo_Worktree repo w = (Ok worktree, w1) ->
      worktree_Submodules worktree w1 = (Ok submodules, w2) ->
      exists k,
        updatedNames (events (cultivateSubmodules h repo repoPath w))
        = firstn k (map submodule_Name submodules) /\
        match value (cultivateSubmodules h repo repoPath w) with
        | None => k = List.length submodules
        | Some e =>
            exists name cause,
              nth_error (map submodule_Name submodules) (k - 1) = Some name /\
              (0 < k)%nat /\
              e = "failed to cultivate submodule " +++ name +++ ": " +++ cause
        end) /\
  (forall worktree w1 w2,
      repo_Worktree repo w = (Ok worktree, w1) ->
      worktree_Submodules worktree w1 = (Ok [], w2) ->
      cultivateSubmodules h repo repoPath w
      = (None, w2, [EvWorktree; EvSubmodules])) /\
  (forall cause w1,
      repo_Worktree repo w = (Err cause, w1) ->
      cultivateSubmodules h repo repoPath w = (Some cause, w1, [EvWorktree])).
Proof.
  split; [|split].
  - intros worktree w1 submodules w2 Hw Hs.
    rewrite cultivateSubmodules_run, Hw, Hs.
    destruct (len submodules =? 0)%Z eqn:E.
    + exists 0%nat. split; [reflexivity|].
      apply Z.eqb_eq in E. unfold len in E. simpl. lia.
    + destruct (updateLoop_prefix submodules w2) as [k [Hk Hv]].
      exists k. split; [exact Hk | exact Hv].
  - intros worktree w1 w2 Hw Hs. now rewrite cultivateSubmodules_run, Hw, Hs.
  - intros cause w1 Hw. now rewrite cultivateSubmodules_run, Hw.
Qed.

Lemma submodules_stop_at_first_failure_witness :
  updatedNames (events (cultivateSubmodules (X := demoWorld) (New true)
                          "/dst/A" "/dst/A" ["/dst/A"]))
  = ["vendor/lib"] /\
  value (cultivateSubmodules (X := demoWorld) (New true)
           "/dst/A" "/dst/A" ["/dst/A"])
  = Some "failed to cultivate submodule vendor/lib: authentication required".
Proof.
  destruct (proj1 (submodules_stop_at_first_failure (X := demoWorld) (New true)
                     "/dst/A" "/dst/A" ["/dst/A"])
              "/dst/A" ["/dst/A"] ["vendor/lib"] ["/dst/A"] eq_refl eq_refl)
    as [k [Hk Hv]].
  split; reflexivity.
Defined.

(** ** More on the clone loop *)

Lemma harvestItem_cloneURLs {X : Collaborators} (h : Harvester)
  (useHTTPS : bool) (destDir : string) (i n : Z) (repo : Repository) (w : World) :
  incl (cloneURLs (events (harvestItem h useHTTPS destDir i n repo w)))
       (if useHTTPS then [CloneURL repo] else [SSHURL repo; CloneURL repo]).
Proof.
  pose proof (harvestItem_run h useHTTPS destDir i n repo w) as Hrun.
  cbv zeta in Hrun. rewrite Hrun. clear Hrun.
  set (repoPath := filepath_Join destDir (Name repo)).
  set (cloneURL := if useHTTPS then CloneURL repo else SSHURL repo).
  destruct (HarvestRepository_trace h cloneURL repoPath w) as [_ [_ H1]].
  assert (Hfirst : incl [cloneURL]
                     (if useHTTPS then [CloneURL repo]
                      else [SSHURL repo; CloneURL repo])).
  { subst cloneURL. destruct useHTTPS; intros x [<-|[]]; simpl; auto. }
  assert (Hsecond : incl [CloneURL repo]
                      (if useHTTPS then [CloneURL repo]
                       else [SSHURL repo; CloneURL repo])).
  { destruct useHTTPS; intros x [<-|[]]; simpl; auto. }
  destruct (value (HarvestRepository h cloneURL repoPath w)) as [e|].
  - destruct (negb useHTTPS && strings.Contains e "ssh").
    + destruct (HarvestRepository_trace h (CloneURL repo) repoPath
                  (after (HarvestRepository h cloneURL repoPath w))) as [_ [_ H2]].
      unfold events at 1. cbn [snd cloneURLs]. rewrite cloneURLs_app. cbn [cloneURLs].
      rewrite cloneURLs_app. cbn [cloneURLs]. rewrite app_nil_r.
      apply incl_app; eapply incl_tran; eauto.
    + unfold events at 1. cbn [snd cloneURLs]. rewrite cloneURLs_app. cbn [cloneURLs].
      rewrite app_nil_r. eapply incl_tran; eauto.
  - unfold events at 1. cbn [snd cloneURLs]. rewrite cloneURLs_app. cbn [cloneURLs].
    rewrite app_nil_r. eapply incl_tran; eauto.
Qed.

Lemma harvestFrom_https_statPaths {X : Collaborators} (h : Harvester)
  (destDir : string) (rest : list Repository) :
  forall i n w,
    statPaths (events (harvestFrom h true destDir i n rest w))
    = map (fun repo => filepath_Join destDir (Name repo)) rest.
Proof.
  induction rest as [|repo rest IH]; intros i n w; [reflexivity|].
  cbn [harvestFrom map]. rewrite events_bind, statPaths_app, IH.
  pose proof (harvestItem_statPaths h true destDir i n repo w) as H.
  cbv zeta in H. rewrite H. now destruct (value _).
Qed.

Lemma harvestFrom_https_cloneURLs {X : Collaborators} (h : Harvester)
  (destDir : string) (rest : list Repository) :
  forall i n w,
    incl (cloneURLs (events (harvestFrom h true destDir i n rest w)))
         (map CloneURL rest).
Proof.
  induction rest as [|repo rest IH]; intros i n w; [intros x []|].
  cbn [harvestFrom map]. rewrite events_bind, cloneURLs_app.
  apply incl_app.
  - eapply incl_tran; [apply (harvestItem_cloneURLs h true)|].
    intros x [<-|[]]. now left.
  - eapply incl_tran; [apply IH|]. now apply incl_tl.
Qed.

(** X15. With [--https] every selected item is harvested exactly once,
    in the order of the selection, and only HTTPS URLs are ever cloned: there
    is no retry and the SSH URL is not used. *)
Theorem https_mode_one_attempt_each {X : Collaborators} (h : Harvester)
  (destDir : string) (selectedRepos : list Repository) (w : World) :
  statPaths (events (harvestLoop h true destDir selectedRepos w))
  = map (fun repo => filepath_Join destDir (Name repo)) selectedRepos /\
  incl (cloneURLs (events (harvestLoop h true destDir selectedRepos w)))
       (map CloneURL selectedRepos).
Proof.
  split; [apply harvestFrom_https_statPaths | apply harvestFrom_https_cloneURLs].
Qed.

Lemma harvestFrom_attempts {X : Collaborators} (h : Harvester)
  (useHTTPS : bool) (destDir : string) (rest : list Repository) :
  forall i n w,
    (List.length rest
     <= List.length (statPaths (events (harvestFrom h useHTTPS destDir i n rest w)))
     <= 2 * List.length rest)%nat /\
    incl (statPaths (events (harvestFrom h useHTTPS destDir i n rest w)))
         (map (fun repo => filepath_Join destDir (Name repo)) rest) /\
    incl (cloneURLs (events (harvestFrom h useHTTPS destDir i n rest w)))
         (map SSHURL rest ++ map CloneURL rest).
Proof.
  induction rest as [|repo rest IH]; intros i n w.
  - simpl. repeat split; try lia; intros x [].
  - cbn [harvestFrom map]. rewrite events_bind, statPaths_app, cloneURLs_app.
    rewrite length_app.
    destruct (IH (i + 1)%Z n
                (after (harvestItem h useHTTPS destDir i n repo w)))
      as [Hlen [Hst Hcl]].
    pose proof (harvestItem_statPaths h useHTTPS destDir i n repo w) as H.
    cbv zeta in H. rewrite H. clear H.
    assert (Hitem : exists k, (k = 1 \/ k = 2)%nat /\
              (match
                  value (HarvestRepository h
                           (if useHTTPS then CloneURL repo else SSHURL repo)
                           (filepath_Join destDir (Name repo)) w)
                with
                | Some e =>
                    if negb useHTTPS && strings.Contains e "ssh"
                    then [filepath_Join destDir (Name repo);
                          filepath_Join destDir (Name repo)]
                    else [filepath_Join destDir (Name repo)]
                | None => [filepath_Join destDir (Name repo)]
                end) = repeat (filepath_Join destDir (Name repo)) k).
    { destruct (value _) as [e|]; [destruct (_ && _)%bool|];
        [exists 2%nat | exists 1%nat | exists 1%nat]; auto. }
    destruct Hitem as [k [Hk ->]]. rewrite repeat_length. cbn [List.length].
    split; [lia|]. split.
    + apply incl_app.
      * intros x Hx. apply repeat_spec in Hx. subst x. now left.
      * now apply incl_tl.
    + apply incl_app.
      * eapply incl_tran; [apply harvestItem_cloneURLs|].
        destruct useHTTPS; intros x Hx; simpl in Hx.
        -- destruct Hx as [<-|[]]. apply in_or_app. right. now left.
        -- destruct Hx as [<-|[<-|[]]]; apply in_or_app;
             [left | right]; now left.
      * eapply incl_tran; [apply Hcl|]. intros x Hx. apply in_app_or in Hx.
        apply in_or_app. destruct Hx; [left | right]; now right.
Qed.


(** X17. A destination that already exists is left alone: whatever the
    mode, and whether or not the error text brings about a retry, the item is
    reported as failed, nothing is cloned and the world is as it was. *)
Theorem existing_destination_is_left_alone {X : Collaborators} (h : Harvester)
  (useHTTPS : bool) (destDir : string) (i n : Z) (repo : Repository) (w : World) :
  os_Stat (filepath_Join destDir (Name repo)) w = true ->
  after (harvestItem h useHTTPS destDir i n repo w) = w /\
  cloneURLs (events (harvestItem h useHTTPS destDir i n repo w)) = [] /\
  In (EvPrint ("  FAILED to harvest " +++ Name repo +++ ": "
                 +++ ("directory " +++ filepath_Join destDir (Name repo)
                        +++ " already exists")
                 +++ nl))
     (events (harvestItem h useHTTPS destDir i n repo w)).
Proof.
  intros Hs.
  pose proof (harvestItem_run h useHTTPS destDir i n repo w) as Hrun.
  cbv zeta in Hrun. rewrite Hrun. clear Hrun.
  rewrite (HarvestRepository_existing h _ _ w Hs).
  unfold value, after, events. cbn [fst snd].
  rewrite (HarvestRepository_existing h (CloneURL repo) _ w Hs). cbn [fst snd].
  destruct (negb useHTTPS && strings.Contains _ "ssh");
    cbn [fst snd app cloneURLs]; repeat split; right; right; now left.
Qed.

Lemma existing_destination_is_left_alone_witness :
  after (harvestItem (X := demoWorld) (New true) false "/ssh-mirror" 0 1 repoA
           ["/ssh-mirror/A"])
  = ["/ssh-mirror/A"] /\
  statPaths (events (harvestItem (X := demoWorld) (New true) false "/ssh-mirror"
                       0 1 repoA ["/ssh-mirror/A"]))
  = ["/ssh-mirror/A"; "/ssh-mirror/A"].
Proof.
  split; [|reflexivity].
  apply (proj1 (existing_destination_is_left_alone (X := demoWorld) (New true)
                  false "/ssh-mirror" 0 1 repoA ["/ssh-mirror/A"] eq_refl)).
Defined.

(** ** The listing and the language statistics *)

Lemma substring_length (n : nat) (s : string) :
  (n <= String.length s)%nat -> String.length (substring 0 n s) = n.
Proof.
  revert s; induction n as [|n IH]; intros s H.
  - now destruct s.
  - destruct s as [|c s]; simpl in *; [lia|]. rewrite IH; lia.
Qed.

Lemma substring_prefix (n : nat) (s : string) :
  exists rest, s = substring 0 n s +++ rest.
Proof.
  revert s; induction n as [|n IH]; intros s.
  - exists s. now destruct s.
  - destruct s as [|c s]; [now exists ""|].
    destruct (IH s) as [rest H]. exists rest. simpl. now rewrite <- H.
Qed.

Lemma length_append (a b : string) :
  String.length (a +++ b) = (String.length a + String.length b)%nat.
Proof. induction a as [|c a IH]; simpl; [reflexivity | now rewrite IH]. Qed.

(** X18. The description shown in the listing is never empty and never
    longer than 50 bytes: an empty description is replaced by a placeholder,
    one of up to 50 bytes is shown as it is, a longer one is cut to its first
    47 bytes followed by three dots.  The language column is never empty
    either. *)
Theorem listing_columns (repo : Repository) :
  (1 <= String.length (shownDescription repo) <= 50)%nat /\
  ((1 <= String.length (Description repo) <= 50)%nat ->
   shownDescription repo = Description repo) /\
  ((50 < String.length (Description repo))%nat ->
   String.length (shownDescription repo) = 50%nat /\
   exists cut, Description repo = substring 0 47 (Description repo) +++ cut /\
               shownDescription repo
               = substring 0 47 (Description repo) +++ "...") /\
  getLanguageDisplay (Language repo) <> "" /\
  (Language repo <> "" -> getLanguageDisplay (Language repo) = Language repo).
Proof.
  unfold shownDescription.
  destruct (String.eqb_spec (Description repo) "") as [E|E].
  - rewrite E. cbn. repeat split; try lia.
    + unfold getLanguageDisplay.
      destruct (String.eqb (Language repo) "" || _)%bool eqn:El; [discriminate|].
      apply orb_false_iff in El. destruct El as [El _].
      now apply String.eqb_neq in El.
    + intros Hl. unfold getLanguageDisplay.
      destruct (String.eqb_spec (Language repo) "") as [|_]; [contradiction|].
      cbn [orb]. destruct (String.eqb_spec (Language repo) "Unknown"); congruence.
  - assert (Hpos : (1 <= String.length (Description repo))%nat)
      by (destruct (Description repo); [congruence | simpl; lia]).
    destruct (Z.ltb_spec 50 (Z.of_nat (String.length (Description repo))))
      as [Hlong|Hshort].
    + assert (Hcut : String.length (substring 0 47 (Description repo)) = 47%nat)
        by (apply substring_length; lia).
      rewrite length_append, Hcut. cbn [String.length].
      repeat split; try lia.
      * destruct (substring_prefix 47 (Description repo)) as [cut Hc]. eauto.
      * unfold getLanguageDisplay.
        destruct (String.eqb (Language repo) "" || _)%bool eqn:El; [discriminate|].
        apply orb_false_iff in El. destruct El as [El _].
        now apply String.eqb_neq in El.
      * intros Hl. unfold getLanguageDisplay.
        destruct (String.eqb_spec (Language repo) "") as [|_]; [contradiction|].
        cbn [orb]. destruct (String.eqb_spec (Language repo) "Unknown"); congruence.
    + repeat split; try lia.
      * unfold getLanguageDisplay.
        destruct (String.eqb (Language repo) "" || _)%bool eqn:El; [discriminate|].
        apply orb_false_iff in El. destruct El as [El _].
        now apply String.eqb_neq in El.
      * intros Hl. unfold getLanguageDisplay.
        destruct (String.eqb_spec (Language repo) "") as [|_]; [contradiction|].
        cbn [orb]. destruct (String.eqb_spec (Language repo) "Unknown"); congruence.
Qed.

Lemma countLanguage_fold (repos : list Repository) (key : string) :
  forall m,
    fold_left countLanguage repos m key
    = (m key + len (filter (fun r => String.eqb key (statLanguage r)) repos))%Z.
Proof.
  induction repos as [|r repos IH]; intros m.
  - unfold len. simpl. lia.
  - cbn [fold_left filter]. rewrite IH. unfold countLanguage.
    destruct (String.eqb key (statLanguage r)); unfold len; cbn [List.length]; lia.
Qed.

Lemma filter_length_mono {A : Type} (p q : A -> bool) (l : list A) :
  (forall x, In x l -> p x = true -> q x = true) ->
  (List.length (filter p l) <= List.length (filter q l))%nat.
Proof.
  induction l as [|x l IH]; intros H; simpl; [lia|].
  assert (IH' : (List.length (filter p l) <= List.length (filter q l))%nat)
    by (apply IH; intros y Hy; apply H; now right).
  destruct (p x) eqn:Ep.
  - rewrite (H x (or_introl eq_refl) Ep). simpl. lia.
  - destruct (q x); simpl; lia.
Qed.

(** X19. The language statistics count, for each language as it is
    written, the repositories of that language, those without a language
    under [Unknown]; the empty language has no count; and when no repository
    lacks a language, the count shown for a language is at most the number of
    candidates that typing that language at the prompt narrows to. *)
Theorem language_statistics (repos : list Repository) (key : string) :
  langCount repos key
  = len (filter (fun r => String.eqb key (statLanguage r)) repos) /\
  langCount repos "" = 0%Z /\
  (0 <= langCount repos key <= len repos)%Z /\
  ((forall r, In r repos -> Language r <> "") ->
   (langCount repos key <= len (tryLanguageFilter repos key))%Z).
Proof.
  assert (Hc : forall k, langCount repos k
                 = len (filter (fun r => String.eqb k (statLanguage r)) repos)).
  { intros k. unfold langCount. rewrite countLanguage_fold. lia. }
  split; [apply Hc|]. split; [|split].
  - rewrite Hc. rewrite filter_none; [reflexivity|].
    intros r _. unfold statLanguage.
    destruct (String.eqb_spec (Language r) "") as [E|E]; [reflexivity|].
    apply String.eqb_neq. congruence.
  - rewrite Hc. unfold len. pose proof (filter_length_le
      (fun r => String.eqb key (statLanguage r)) repos). lia.
  - intros Hlang. rewrite Hc, tryLanguageFilter_filter. unfold len.
    apply inj_le. apply filter_length_mono. intros r Hr Hk.
    apply String.eqb_eq in Hk. unfold statLanguage in Hk.
    destruct (String.eqb_spec (Language r) "") as [E|E];
      [now destruct (Hlang r Hr)|].
    unfold languageIs. apply String.eqb_eq. now rewrite Hk.
Qed.

(** ** Discovery *)

Lemma appendPage_spec (allRepos : list Repository)
  (repos : list github.Repository) :
  appendPage allRepos repos
  = allRepos ++ map toRepository
                    (filter (fun r => negb (github.Fork r)) repos).
Proof.
  unfold appendPage. revert allRepos.
  induction repos as [|r repos IH]; intros allRepos; simpl.
  - now rewrite app_nil_r.
  - rewrite IH. destruct (github.Fork r); simpl; [reflexivity|].
    now rewrite <- app_assoc.
Qed.

Lemma toRepository_language (repo : github.Repository) :
  Language (toRepository repo) <> "".
Proof.
  unfold toRepository. simpl.
  destruct (String.eqb_spec (github.Language repo) ""); [discriminate | assumption].
Qed.

Lemma discoverFrom_result {X : Collaborators} {Y : System} (fuel : nat)
  (c : Client) (owner : string) :
  forall page allRepos stdin w repos stdin' w' t,
    discoverFrom fuel c owner page allRepos stdin w
    = (Done (Ok repos), stdin', w', t) ->
    repos = allRepos ++ map toRepository
                          (filter (fun r => negb (github.Fork r))
                                  (served fuel c owner page w)) /\
    stdin' = stdin.
Proof.
  induction fuel as [|fuel IH]; intros page allRepos stdin w repos stdin' w' t H.
  - discriminate.
  - cbn [discoverFrom served] in *. unfold bindP, act in H.
    destruct (Repositories_List (accessToken c) owner page w)
      as [[[page_repos nextPage]|e] w1].
    + destruct (nextPage =? 0)%Z.
      * unfold retP in H. injection H as <- <- _ _.
        now rewrite app_nil_r, appendPage_spec.
      * destruct (discoverFrom fuel c owner nextPage
                    (appendPage allRepos page_repos) stdin w1)
          as [[[o s2] w2] t2] eqn:E.
        injection H as -> -> _ _.
        destruct (IH _ _ _ _ _ _ _ _ E) as [-> ->].
        split; [|reflexivity].
        now rewrite appendPage_spec, filter_app, map_app, app_assoc.
    + unfold retP in H. discriminate.
Qed.

(** X20. When [DiscoverRepositories] returns a list, it holds the
    repositories the server sent over all the pages, in their order, forks
    left out; every one of them has a language, [Unknown] standing for none;
    and the standard input has not been touched. *)
Theorem discovery_skips_forks_and_names_languages {X : Collaborators}
  {Y : System} (fuel : nat) (c : Client) (owner : string)
  (stdin stdin' : list string) (w w' : World) (repos : list Repository)
  (t : list Action) :
  DiscoverRepositories fuel c owner stdin w = (Done (Ok repos), stdin', w', t) ->
  repos = map toRepository
              (filter (fun r => negb (github.Fork r)) (served fuel c owner 0 w)) /\
  Forall (fun r => Language r <> "") repos /\
  (forall r, In r repos -> statLanguage r = Language r) /\
  stdin' = stdin.
Proof.
  intros H. apply discoverFrom_result in H. destruct H as [-> ->].
  assert (Hl : Forall (fun r => Language r <> "")
                 (map toRepository
                    (filter (fun r => negb (github.Fork r))
                            (served fuel c owner 0 w)))).
  { apply Forall_forall. intros r Hr. apply in_map_iff in Hr.
    destruct Hr as [g [<- _]]. apply toRepository_language. }
  repeat split; auto.
  intros r Hr. rewrite Forall_forall in Hl. specialize (Hl r Hr).
  unfold statLanguage. now destruct (String.eqb_spec (Language r) "").
Qed.

Lemma discovery_skips_forks_and_names_languages_witness :
  DiscoverRepositories (X := demoWorld) (Y := demoSystem) 5 (NewClient "")
    "o" [ln "all"] []
  = (Done (Ok [sample "A" "Go"; sample "N" "Unknown"]), [ln "all"], [],
     [ActList "o" 0; ActList "o" 2]) /\
  Forall (fun r => Language r <> "") [sample "A" "Go"; sample "N" "Unknown"].
Proof.
  assert (H : DiscoverRepositories (X := demoWorld) (Y := demoSystem) 5
                (NewClient "") "o" [ln "all"] []
              = (Done (Ok [sample "A" "Go"; sample "N" "Unknown"]), [ln "all"], [],
                 [ActList "o" 0; ActList "o" 2])) by reflexivity.
  split; [exact H|].
  exact (proj1 (proj2 (discovery_skips_forks_and_names_languages
                         (X := demoWorld) (Y := demoSystem) _ _ _ _ _ _ _ _ _ H))).
Defined.

Lemma discoverFrom_enough {X : Collaborators} {Y : System} (n : nat)
  (c : Client) (owner : string) :
  forall page allRepos stdin w,
    listingEnds n c owner page w = true ->
    outcome (discoverFrom n c owner page allRepos stdin w) <> OutOfFuel /\
    forall m, (n <= m)%nat ->
              discoverFrom m c owner page allRepos stdin w
              = discoverFrom n c owner page allRepos stdin w.
Proof.
  induction n as [|n IH]; intros page allRepos stdin w H; [discriminate|].
  cbn [listingEnds] in H. cbn [discoverFrom]. unfold bindP, act.
  destruct (Repositories_List (accessToken c) owner page w)
    as [[[page_repos nextPage]|e] w1] eqn:E.
  - destruct (nextPage =? 0)%Z eqn:En.
    + split; [discriminate|]. intros m Hm. destruct m as [|m]; [lia|].
      cbn [discoverFrom]. unfold bindP, act. now rewrite E, En.
    + destruct (IH nextPage (appendPage allRepos page_repos) stdin w1 H)
        as [Hout Hm].
      split.
      * destruct (discoverFrom n c owner nextPage _ stdin w1)
          as [[[o s2] w2] t2]. unfold outcome in *. simpl in *.
        now destruct o.
      * intros m Hle. destruct m as [|m]; [lia|].
        cbn [discoverFrom]. unfold bindP, act. rewrite E, En.
        now rewrite (Hm m) by lia.
  - split; [discriminate|]. intros m Hm. destruct m as [|m]; [lia|].
    cbn [discoverFrom]. unfold bindP, act. now rewrite E.
Qed.

(** X21. [DiscoverRepositories] comes to an end as soon as the server
    answers with an error or with no next page: a number of pages within
    which the listing ends is enough, and allowing more changes nothing.  An
    error on any page is the result, and the repositories of the pages before
    it are dropped. *)
Theorem discovery_ends_with_the_listing {X : Collaborators} {Y : System}
  (n : nat) (c : Client) (owner : string) (stdin : list string) (w : World) :
  listingEnds n c owner 0 w = true ->
  outcome (DiscoverRepositories n c owner stdin w) <> OutOfFuel /\
  (forall m, (n <= m)%nat ->
             DiscoverRepositories m c owner stdin w
             = DiscoverRepositories n c owner stdin w) /\
  (forall code, outcome (DiscoverRepositories n c owner stdin w)
                <> Exit code).
Proof.
  intros H. destruct (discoverFrom_enough n c owner 0 [] stdin w H) as [H1 H2].
  split; [exact H1|]. split; [exact H2|].
  intros code. unfold DiscoverRepositories. clear H H1 H2.
  generalize (@nil Repository) as acc. generalize 0%Z as page. revert w.
  induction n as [|n IH]; intros w page acc; [discriminate|].
  cbn [discoverFrom]. unfold bindP, act.
  destruct (Repositories_List (accessToken c) owner page w)
    as [[[page_repos nextPage]|e] w1]; [|discriminate].
  destruct (nextPage =? 0)%Z; [discriminate|].
  specialize (IH w1 nextPage (appendPage acc page_repos)).
  destruct (discoverFrom n c owner nextPage _ stdin w1) as [[[o s2] w2] t2].
  unfold outcome in *. simpl in *. now destruct o.
Qed.

Lemma discovery_ends_with_the_listing_witness :
  DiscoverRepositories (X := demoWorld) (Y := demoSystem) 40 (NewClient "")
    "o" [] []
  = DiscoverRepositories (X := demoWorld) (Y := demoSystem) 2 (NewClient "")
      "o" [] [].
Proof.
  apply (proj1 (proj2 (discovery_ends_with_the_listing
                         (X := demoWorld) (Y := demoSystem) 2 (NewClient "")
                         "o" [] [] eq_refl))).
  repeat constructor.
Defined.

(** ** The SSH check *)

Lemma clonedURLs_app (t1 t2 : list Action) :
  clonedURLs (t1 ++ t2) = clonedURLs t1 ++ clonedURLs t2.
Proof.
  induction t1 as [|a t1 IH]; simpl; [reflexivity|].
  destruct a as [e| | | |]; try exact IH. destruct e; simpl; now rewrite ?IH.
Qed.

Lemma clonedURLs_Did (t : list Event) : clonedURLs (map Did t) = cloneURLs t.
Proof.
  induction t as [|e t IH]; simpl; [reflexivity|].
  destruct e; simpl; now rewrite IH.
Qed.

Lemma madeDirs_app (t1 t2 : list Action) :
  madeDirs (t1 ++ t2) = madeDirs t1 ++ madeDirs t2.
Proof.
  induction t1 as [|a t1 IH]; simpl; [reflexivity|].
  destruct a; simpl; now rewrite ?IH.
Qed.

Lemma madeDirs_Did (t : list Event) : madeDirs (map Did t) = [].
Proof. induction t as [|e t IH]; simpl; [reflexivity | exact IH]. Qed.

Lemma keyLoop_run {X : Collaborators} {Y : System} (sshDir : string)
  (keys : list string) (stdin : list string) (w : World) :
  exists t,
    keyLoop sshDir keys stdin w
    = (Done (existsb (fun keyFile => os_Stat (filepath_Join sshDir keyFile) w) keys),
       stdin, w, t) /\
    ~ In ActSsh t /\ clonedURLs t = [] /\ madeDirs t = [].
Proof.
  induction keys as [|k keys IH].
  - exists []. repeat split; auto.
  - cbn [keyLoop existsb]. unfold bindP, lift, call.
    destruct (os_Stat (filepath_Join sshDir k) w) eqn:E.
    + eexists. split; [reflexivity|]. repeat split.
      intros [H|[]]. discriminate.
    + destruct IH as [t [-> [H1 [H2 H3]]]].
      eexists. split; [reflexivity|]. repeat split; auto.
      intros [H|H]; [discriminate | contradiction].
Qed.

Lemma onlyPrints_quiet (t : list Action) :
  onlyPrints t -> ~ In ActSsh t /\ clonedURLs t = [] /\ madeDirs t = [].
Proof.
  induction 1 as [|a t [text ->] _ [H1 [H2 H3]]]; [now repeat split|].
  repeat split; auto. intros [H|H]; [discriminate | contradiction].
Qed.

Ltac prints := repeat (constructor; [eexists; reflexivity|]); constructor.

(** [checkSSHSetup], run: [probes] are the looks at the key files and
    [said] is what is printed. *)
Lemma checkSSHSetup_run {X : Collaborators} {Y : System}
  (stdin : list string) (w : World) :
  exists probes said,
    checkSSHSetup stdin w =
    (if hasKey w then
       if match fst (ssh_T w) with
          | ExitError code => (code =? 1)%Z
          | RunOk => true
          | RunError _ => false
          end
       then (Done tt, stdin, snd (ssh_T w), probes ++ ActSsh :: said)
       else (if saidYes stdin then Done tt else Exit 1, tl stdin,
             snd (ssh_T w), probes ++ ActSsh :: said)
     else (if saidYes stdin then Done tt else Exit 1, tl stdin, w,
           probes ++ said)) /\
    ~ In ActSsh probes /\ clonedURLs probes = [] /\ madeDirs probes = [] /\
    onlyPrints said.
Proof.
  unfold checkSSHSetup.
  unfold bindP at 1. unfold ask. unfold bindP at 1.
  destruct (keyLoop_run (filepath_Join (os_UserHomeDir w) ".ssh") keyFiles stdin w)
    as [t [-> [Hssh [Hcl Hmk]]]].
  fold (hasKey w). exists t. destruct (hasKey w) eqn:Hk; cbn [negb].
  - unfold testSSHConnection, bindP, act, retP.
    destruct (ssh_T w) as [probe w1]. cbn [fst snd].
    destruct (match probe with
              | RunOk => true
              | ExitError code => (code =? 1)%Z
              | RunError _ => false
              end).
    + eexists. split; [reflexivity|]. repeat split; auto. prints.
    + unfold fmt_Println, fmt_Print, lift, Printf, emit, ReadString, os_Exit, saidYes.
      destruct stdin as [|line rest]; cbn [hd tl];
        destruct (String.eqb _ "y"); destruct (String.eqb _ "yes");
        cbn [negb andb orb map app];
        (eexists; split; [reflexivity|]; repeat split; auto; prints).
  - unfold bindP, retP, fmt_Println, fmt_Print, lift, Printf, emit, ReadString,
      os_Exit, saidYes.
    destruct stdin as [|line rest]; cbn [hd tl];
      destruct (String.eqb _ "y"); destruct (String.eqb _ "yes");
      cbn [negb andb orb map app];
      (eexists; split; [reflexivity|]; repeat split; auto; prints).
Qed.



(** ** The destination directory *)

Lemma destinationTurn_cases {X : Collaborators} {Y : System} (line : string)
  (w : World) :
  (strings.TrimSpace line = "" /\
   destinationTurn line w = (Some (os_Getwd w), w, [])) \/
  (strings.TrimSpace line <> "" /\
   ((exists dir w1, destinationTurn line w = (Some dir, w1, [ActMkdirAll dir]) /\
                    os_MkdirAll dir w = (None, w1)) \/
    (exists w1 t, destinationTurn line w = (None, w1, t) /\
                  clonedURLs t = [] /\ ~ In ActSsh t))).
Proof.
  unfold destinationTurn.
  destruct (String.eqb_spec (strings.TrimSpace line) "") as [E|E]; [left; auto|].
  right. split; [exact E|].
  destruct (filepath_Abs _ w) as [absPath|e].
  - destruct (os_MkdirAll absPath w) as [[e|] w1] eqn:Em.
    + right. eexists. eexists. split; [reflexivity|]. split; [reflexivity|].
      intros [H|[H|[]]]; discriminate.
    + left. exists absPath, w1. split; [reflexivity | exact Em].
  - right. eexists. eexists. split; [reflexivity|]. split; [reflexivity|].
    intros [H|[]]; discriminate.
Qed.

Lemma destinationLoop_facts {X : Collaborators} {Y : System} (stdin : list string) :
  forall w,
    exists dir,
      outcome (destinationLoop stdin w) = Done dir /\
      (dir = os_Getwd (worldAfter (destinationLoop stdin w)) \/
       exists w0 before,
         os_MkdirAll dir w0 = (None, worldAfter (destinationLoop stdin w)) /\
         madeDirs (actions (destinationLoop stdin w)) = before ++ [dir]) /\
      clonedURLs (actions (destinationLoop stdin w)) = [] /\
      ~ In ActSsh (actions (destinationLoop stdin w)).
Proof.
  induction stdin as [|line rest IH]; intros w.
  - exists (os_Getwd w). cbn. repeat split; auto.
    intros [H|[]]. discriminate.
  - cbn [destinationLoop].
    destruct (destinationTurn_cases line w)
      as [[_ ->]|[_ [[dir [w1 [-> Hm]]]|[w1 [t [-> [Hc Hs]]]]]]].
    + exists (os_Getwd w). cbn. repeat split; auto.
      intros [H|[]]. discriminate.
    + exists dir. cbn. repeat split.
      * right. exists w, []. split; [exact Hm | reflexivity].
      * intros [H|[H|[]]]; discriminate.
    + destruct (IH w1) as [dir [Ho [Hd [Hcl Hssh]]]].
      destruct (destinationLoop rest w1) as [[[o s2] w2] t2].
      unfold outcome, worldAfter, actions in *. cbn [fst snd] in *.
      exists dir. split; [exact Ho|]. split; [|split].
      * destruct Hd as [Hd|[w0 [before [Hm Hl]]]]; [left; exact Hd|].
        right. exists w0, (madeDirs t ++ before). split; [exact Hm|].
        cbn [madeDirs destinationPrompt].
        now rewrite madeDirs_app, Hl, app_assoc.
      * cbn [clonedURLs destinationPrompt]. now rewrite clonedURLs_app, Hc, Hcl.
      * intros [H|H]; [discriminate|]. apply in_app_or in H. tauto.
Qed.

(** X23. With [--dest] the directory is made without reading the input:
    it is returned when [MkdirAll] succeeds and the run exits with code 1 when
    it fails.  Without it the prompt never gives up and never exits: a blank
    line or the end of the input gives the current directory; otherwise the
    directory returned is the last one made, made with success, every entry
    refused before it having been prompted for again. *)
Theorem destination_is_made_or_current {X : Collaborators} {Y : System}
  (destination : string) (stdin : list string) (w : World) :
  let r := getDestinationDirectory destination stdin w in
  (destination <> "" ->
   inputLeft r = stdin /\ madeDirs (actions r) = [destination] /\
   outcome r = match fst (os_MkdirAll destination w) with
               | None => Done destination
               | Some _ => Exit 1
               end) /\
  (destination = "" ->
   (exists dir,
       outcome r = Done dir /\
       (dir = os_Getwd (worldAfter r) \/
        exists w0 before,
          os_MkdirAll dir w0 = (None, worldAfter r) /\
          madeDirs (actions r) = before ++ [dir])) /\
   (strings.TrimSpace (hd "" stdin) = "" ->
    r = (Done (os_Getwd w), tl stdin, w, [destinationPrompt]))) /\
  clonedURLs (actions r) = [] /\ ~ In ActSsh (actions r).
Proof.
  intros r. subst r. unfold getDestinationDirectory.
  destruct (String.eqb_spec destination "") as [E|E]; cbn [negb].
  - destruct (destinationLoop_facts stdin w) as [dir [Ho [Hd [Hc Hs]]]].
    split; [intros H; contradiction|]. split; [|now split].
    intros _. split; [eauto|]. intros Hb.
    destruct stdin as [|line rest]; [reflexivity|]. cbn [hd tl] in *.
    cbn [destinationLoop]. unfold destinationTurn. now rewrite Hb.
  - unfold bindP, act, Fprintf_Stderr, os_Exit, retP.
    destruct (os_MkdirAll destination w) as [[e|] w1];
      unfold outcome, inputLeft, actions; cbn [fst snd app madeDirs clonedURLs].
    + split; [auto|]. split; [intros H; contradiction|]. split; [reflexivity|].
      intros [H|[H|[]]]; discriminate.
    + split; [auto|]. split; [intros H; contradiction|]. split; [reflexivity|].
      intros [H|[]]; discriminate.
Qed.

Lemma destination_is_made_or_current_witness :
  getDestinationDirectory (X := demoWorld) (Y := demoSystem) ""
    [ln "/ro/x"; ln "~/code"; ln "later"] []
  = (Done "/home/u/code", [ln "later"], ["/home/u/code"],
     actions (getDestinationDirectory (X := demoWorld) (Y := demoSystem) ""
                [ln "/ro/x"; ln "~/code"; ln "later"] [])) /\
  outcome (getDestinationDirectory (X := demoWorld) (Y := demoSystem) "/ro/x"
             [] [])
  = Exit 1.
Proof.
  split; [reflexivity|].
  apply (proj1 (destination_is_made_or_current (X := demoWorld) (Y := demoSystem)
                  "/ro/x" [] [])).
  discriminate.
Defined.

(** ** The run *)

Lemma bindP_cases {X : Collaborators} {A B : Type} (m : Proc A)
  (k : A -> Proc B) (stdin : list string) (w : World) :
  (exists a stdin1 w1 t1,
      m stdin w = (Done a, stdin1, w1, t1) /\
      bindP m k stdin w
      = (outcome (k a stdin1 w1), inputLeft (k a stdin1 w1),
         worldAfter (k a stdin1 w1), t1 ++ actions (k a stdin1 w1))) \/
  (exists code stdin1 w1 t1,
      m stdin w = (Exit code, stdin1, w1, t1) /\
      bindP m k stdin w = (Exit code, stdin1, w1, t1)) \/
  (exists stdin1 w1 t1,
      m stdin w = (OutOfFuel, stdin1, w1, t1) /\
      bindP m k stdin w = (OutOfFuel, stdin1, w1, t1)).
Proof.
  unfold bindP. destruct (m stdin w) as [[[[a|code|] stdin1] w1] t1].
  - left. exists a, stdin1, w1, t1. split; [reflexivity|].
    now destruct (k a stdin1 w1) as [[[o s2] w2] t2].
  - right. left. now exists code, stdin1, w1, t1.
  - right. right. now exists stdin1, w1, t1.
Qed.

Lemma In_ActSsh_Did (t : list Event) : ~ In ActSsh (map Did t).
Proof. induction t as [|e t IH]; simpl; [tauto | intros [H|H]; [discriminate | tauto]]. Qed.

(** A step that clones nothing and exits, if at all, with code 1, followed
    by steps that exit only before cloning. *)
Lemma bindP_exitsBeforeCloning {X : Collaborators} {A B : Type} (m : Proc A)
  (k : A -> Proc B) (stdin : list string) (w : World) :
  clonedURLs (actions (m stdin w)) = [] ->
  (forall code, outcome (m stdin w) = Exit code -> code = 1%Z) ->
  (forall a stdin1 w1, exitsBeforeCloning (k a stdin1 w1)) ->
  exitsBeforeCloning (bindP m k stdin w).
Proof.
  intros Hc He Hk code.
  destruct (bindP_cases m k stdin w)
    as [[a [s1 [w1 [t1 [Hm ->]]]]]|[[c [s1 [w1 [t1 [Hm ->]]]]]|[s1 [w1 [t1 [Hm ->]]]]]];
    rewrite Hm in Hc, He; unfold outcome, actions in *; cbn [fst snd] in *.
  - intros Ho. destruct (Hk a s1 w1 code Ho) as [-> Hcl].
    split; [reflexivity|]. unfold actions in Hcl. now rewrite clonedURLs_app, Hc, Hcl.
  - intros Ho. injection Ho as <-. split; [now apply He | exact Hc].
  - discriminate.
Qed.

Lemma bindP_actions_incl {X : Collaborators} {A B : Type} (m : Proc A)
  (k : A -> Proc B) (stdin : list string) (w : World) (urls : list string) :
  clonedURLs (actions (m stdin w)) = [] ->
  (forall a stdin1 w1, incl (clonedURLs (actions (k a stdin1 w1))) urls) ->
  incl (clonedURLs (actions (bindP m k stdin w))) urls.
Proof.
  intros Hc Hk.
  destruct (bindP_cases m k stdin w)
    as [[a [s1 [w1 [t1 [Hm ->]]]]]|[[c [s1 [w1 [t1 [Hm ->]]]]]|[s1 [w1 [t1 [Hm ->]]]]]];
    rewrite Hm in Hc; unfold actions in *; cbn [fst snd] in *.
  - rewrite clonedURLs_app, Hc. apply Hk.
  - rewrite Hc. intros x [].
  - rewrite Hc. intros x [].
Qed.

Lemma bindP_no_ssh {X : Collaborators} {A B : Type} (m : Proc A)
  (k : A -> Proc B) (stdin : list string) (w : World) :
  ~ In ActSsh (actions (m stdin w)) ->
  (forall a stdin1 w1, ~ In ActSsh (actions (k a stdin1 w1))) ->
  ~ In ActSsh (actions (bindP m k stdin w)).
Proof.
  intros Hc Hk.
  destruct (bindP_cases m k stdin w)
    as [[a [s1 [w1 [t1 [Hm ->]]]]]|[[c [s1 [w1 [t1 [Hm ->]]]]]|[s1 [w1 [t1 [Hm ->]]]]]];
    rewrite Hm in Hc; unfold actions in *; cbn [fst snd] in *; auto.
  intros H. apply in_app_or in H. destruct H as [H|H]; [tauto|].
  now apply (Hk a s1 w1).
Qed.

Lemma print_run {X : Collaborators} (text : string) (stdin : list string)
  (w : World) :
  fmt_Print text stdin w = (Done tt, stdin, w, [Did (EvPrint text)]).
Proof. reflexivity. Qed.

Lemma println_run {X : Collaborators} (text : string) (stdin : list string)
  (w : World) :
  fmt_Println text stdin w = (Done tt, stdin, w, [Did (EvPrint (text +++ nl))]).
Proof. reflexivity. Qed.

Lemma getDestinationDirectory_quiet {X : Collaborators} {Y : System}
  (destination : string) (stdin : list string) (w : World) :
  clonedURLs (actions (getDestinationDirectory destination stdin w)) = [] /\
  ~ In ActSsh (actions (getDestinationDirectory destination stdin w)) /\
  (forall code, outcome (getDestinationDirectory destination stdin w) = Exit code ->
                code = 1%Z).
Proof.
  unfold getDestinationDirectory.
  destruct (String.eqb_spec destination "") as [E|E]; cbn [negb].
  - destruct (destinationLoop_facts stdin w) as [dir [Ho [_ [Hc Hs]]]].
    repeat split; auto. intros code H. congruence.
  - unfold bindP, act, Fprintf_Stderr, os_Exit, retP.
    destruct (os_MkdirAll destination w) as [[e|] w1];
      unfold outcome, actions; cbn [fst snd app clonedURLs]; repeat split;
      try (intros code H; congruence).
    + intros [H|[H|[]]]; discriminate.
    + intros [H|[]]; discriminate.
Qed.

(** The clone loop as a step of the run. *)
Lemma cloneLoop_step {X : Collaborators} (h : Harvester) (useHTTPS : bool)
  (destDir : string) (selectedRepos : list Repository) (stdin : list string)
  (w : World) :
  exists w1,
    lift (harvestLoop h useHTTPS destDir selectedRepos) stdin w
    = (Done tt, stdin, w1,
       map Did (events (harvestLoop h useHTTPS destDir selectedRepos w))).
Proof.
  unfold lift, events.
  destruct (harvestLoop h useHTTPS destDir selectedRepos w) as [[[] w1] t].
  now exists w1.
Qed.

Lemma harvestLoop_cloneURLs {X : Collaborators} (h : Harvester)
  (useHTTPS : bool) (destDir : string) (selectedRepos : list Repository)
  (w : World) :
  incl (cloneURLs (events (harvestLoop h useHTTPS destDir selectedRepos w)))
       (if useHTTPS then map CloneURL selectedRepos
        else map SSHURL selectedRepos ++ map CloneURL selectedRepos).
Proof.
  destruct useHTTPS.
  - apply harvestFrom_https_cloneURLs.
  - apply harvestFrom_attempts.
Qed.

Lemma incl_map {A B : Type} (f : A -> B) (l l' : list A) :
  incl l l' -> incl (map f l) (map f l').
Proof.
  intros H y Hy. apply in_map_iff in Hy. destruct Hy as [x [<- Hx]].
  apply in_map. now apply H.
Qed.

Lemma urls_incl (useHTTPS : bool) (l l' : list Repository) :
  incl l l' ->
  incl (if useHTTPS then map CloneURL l else map SSHURL l ++ map CloneURL l)
       (if useHTTPS then map CloneURL l' else map SSHURL l' ++ map CloneURL l').
Proof.
  intros H. destruct useHTTPS; [now apply incl_map|].
  apply incl_app; [apply incl_appl | apply incl_appr]; now apply incl_map.
Qed.

Lemma harvestFiltered_facts {X : Collaborators} {Y : System} (f : flag.t)
  (repos : list Repository) (stdin : list string) (w : World) :
  exitsBeforeCloning (harvestFiltered f repos stdin w) /\
  ~ In ActSsh (actions (harvestFiltered f repos stdin w)) /\
  incl (clonedURLs (actions (harvestFiltered f repos stdin w)))
       (if flag.useHTTPS f then map CloneURL repos
        else map SSHURL repos ++ map CloneURL repos) /\
  outcome (harvestFiltered f repos stdin w) <> OutOfFuel /\
  (selectRepositories repos stdin = [] ->
   harvestFiltered f repos stdin w
   = (Done tt, selectRest repos [] stdin, w,
      [Did (EvPrint ("No repositories selected for harvest." +++ nl))])).
Proof.
  remember (harvestFiltered f repos stdin w) as r eqn:Er.
  unfold harvestFiltered, selectRepositoriesP in Er. unfold bindP at 1 in Er.
  pose proof (selectLoop_incl stdin repos [] (fun x (H : In x []) => match H with end))
    as Hsel.
  fold (selectRepositories repos stdin) in Hsel.
  destruct (selectRepositories repos stdin) as [|r0 sel] eqn:Es.
  - change (len [] =? 0)%Z with true in Er. cbv iota in Er.
    rewrite println_run in Er. cbn [app] in Er. subst r.
    unfold exitsBeforeCloning, outcome, actions. cbn [fst snd clonedURLs].
    repeat split; try discriminate.
    + intros [H|[]]. discriminate.
    + intros x [].
  - replace (len (r0 :: sel) =? 0)%Z with false in Er
      by (symmetry; apply Z.eqb_neq; unfold len; simpl; lia).
    set (selected := r0 :: sel) in *. cbv iota in Er.
    destruct (getDestinationDirectory_quiet (flag.destination f)
                (selectRest repos [] stdin) w) as [Hc [Hs He]].
    unfold bindP at 1 in Er.
    destruct (getDestinationDirectory (flag.destination f)
                (selectRest repos [] stdin) w)
      as [[[[destDir|code|] s1] w1] t1] eqn:Eg;
      unfold outcome, actions in Hc, Hs, He; cbn [fst snd] in Hc, Hs, He.
    + pose proof (harvestLoop_cloneURLs (New (flag.recursive f)) (flag.useHTTPS f)
                    destDir selected w1) as Hurls.
      pose proof (urls_incl (flag.useHTTPS f) selected repos Hsel) as Hincl.
      assert (Hr : exists said1 said2,
                 onlyPrints said1 /\ onlyPrints said2 /\
                 r = (Done tt, s1,
                      after (harvestLoop (New (flag.recursive f)) (flag.useHTTPS f)
                               destDir selected w1),
                      t1 ++ said1 ++
                        map Did (events (harvestLoop (New (flag.recursive f))
                                           (flag.useHTTPS f) destDir selected w1))
                        ++ said2)).
      { unfold bindP, fmt_Print, fmt_Println, lift, Printf, emit, retP in Er.
        unfold after, events.
        destruct (flag.useHTTPS f);
          destruct (harvestLoop (New (flag.recursive f)) _ destDir selected w1)
            as [[[] w2] t2];
          cbn [negb map app fst snd] in Er |- *;
          (eexists [_; _]; eexists; split; [prints|]; split; [|exact Er]; prints). }
      destruct Hr as [said1 [said2 [H1 [H2 ->]]]].
      destruct (onlyPrints_quiet _ H1) as [A1 [B1 _]].
      destruct (onlyPrints_quiet _ H2) as [A2 [B2 _]].
      unfold exitsBeforeCloning, outcome, actions. cbn [fst snd].
      repeat split; try discriminate.
      * intros Hin.
        repeat (apply in_app_or in Hin; destruct Hin as [Hin|Hin]); auto.
        now apply (In_ActSsh_Did _ Hin).
      * rewrite !clonedURLs_app, Hc, B1, B2, clonedURLs_Did, app_nil_r.
        cbn [app]. eapply incl_tran; [exact Hurls | exact Hincl].
    + subst r. unfold exitsBeforeCloning, outcome, actions. cbn [fst snd app].
      split; [intros c Hx; injection Hx as <-; split; [now apply He | exact Hc]|].
      split; [exact Hs|]. split; [rewrite Hc; intros x []|].
      split; discriminate.
    + exfalso. unfold getDestinationDirectory in Eg.
      destruct (negb (String.eqb (flag.destination f) "")).
      * unfold bindP, act, Fprintf_Stderr, os_Exit, retP in Eg.
        destruct (os_MkdirAll (flag.destination f) w) as [[e|] w3]; discriminate.
      * destruct (destinationLoop_facts (selectRest repos [] stdin) w)
          as [dir [Ho _]].
        rewrite Eg in Ho. discriminate.
Qed.

Lemma filterByLanguage_incl (repos : list Repository) (language : string) :
  incl (filterByLanguage repos language) repos.
Proof. rewrite filterByLanguage_filter. apply incl_filter. Qed.

Lemma harvestDiscovered_facts {X : Collaborators} {Y : System} (f : flag.t)
  (repos : list Repository) (stdin : list string) (w : World) :
  let candidates :=
    if String.eqb (flag.filterLang f) "" then repos
    else filterByLanguage repos (flag.filterLang f) in
  exitsBeforeCloning (harvestDiscovered f repos stdin w) /\
  ~ In ActSsh (actions (harvestDiscovered f repos stdin w)) /\
  incl (clonedURLs (actions (harvestDiscovered f repos stdin w)))
       (if flag.useHTTPS f then map CloneURL candidates
        else map SSHURL candidates ++ map CloneURL candidates) /\
  outcome (harvestDiscovered f repos stdin w) <> OutOfFuel /\
  (candidates = [] ->
   outcome (harvestDiscovered f repos stdin w) = Done tt /\
   inputLeft (harvestDiscovered f repos stdin w) = stdin /\
   worldAfter (harvestDiscovered f repos stdin w) = w /\
   onlyPrints (actions (harvestDiscovered f repos stdin w))) /\
  (selectRepositories candidates stdin = [] ->
   outcome (harvestDiscovered f repos stdin w) = Done tt /\
   worldAfter (harvestDiscovered f repos stdin w) = w /\
   onlyPrints (actions (harvestDiscovered f repos stdin w))).
Proof.
  intros candidates. subst candidates.
  remember (harvestDiscovered f repos stdin w) as r eqn:Er.
  unfold harvestDiscovered in Er.
  assert (Hprint : forall said : list Action,
             onlyPrints said ->
             r = (Done tt, stdin, w, said) ->
             exitsBeforeCloning r /\ ~ In ActSsh (actions r) /\
             (forall urls, incl (clonedURLs (actions r)) urls) /\
             outcome r <> OutOfFuel /\
             outcome r = Done tt /\ inputLeft r = stdin /\ worldAfter r = w /\
             onlyPrints (actions r)).
  { intros said Hs ->. destruct (onlyPrints_quiet said Hs) as [A [B _]].
    unfold exitsBeforeCloning, outcome, inputLeft, worldAfter, actions.
    cbn [fst snd]. repeat split; try discriminate; auto.
    intros urls. rewrite B. intros x []. }
  destruct repos as [|r0 repos'].
  - change (len [] =? 0)%Z with true in Er. cbv iota in Er.
    rewrite println_run in Er.
    match type of Er with
    | _ = (_, _, _, ?said) =>
        assert (Hsaid : onlyPrints said) by prints;
        destruct (Hprint said Hsaid Er) as [H1 [H2 [H3 [H4 [H5 [H6 [H7 H8]]]]]]]
    end.
    split; [exact H1|]. split; [exact H2|]. split; [apply H3|].
    split; [exact H4|]. split; intros _; repeat split; assumption.
  - set (repos := r0 :: repos') in *.
    replace (len repos =? 0)%Z with false in Er
      by (symmetry; apply Z.eqb_neq; unfold len; simpl; lia).
    cbv iota in Er.
    destruct (String.eqb (flag.filterLang f) "") eqn:El; cbn [negb] in Er.
    + destruct (harvestFiltered_facts f repos stdin w) as [H1 [H2 [H3 [H4 H5]]]].
      rewrite <- Er in H1, H2, H3, H4, H5.
      split; [exact H1|]. split; [exact H2|]. split; [exact H3|].
      split; [exact H4|]. split; [discriminate|].
      intros Hs. rewrite (H5 Hs).
      unfold outcome, worldAfter, actions. cbn [fst snd].
      split; [reflexivity|]. split; [reflexivity|]. prints.
    + cbv zeta in Er. unfold bindP at 1 in Er. rewrite print_run in Er.
      destruct (filterByLanguage repos (flag.filterLang f)) as [|c0 cs] eqn:Ef.
      * change (len [] =? 0)%Z with true in Er. cbv iota in Er.
        rewrite print_run in Er. cbn [app] in Er.
        match type of Er with
        | _ = (_, _, _, ?said) =>
            assert (Hsaid : onlyPrints said) by prints;
            destruct (Hprint said Hsaid Er) as [H1 [H2 [H3 [H4 [H5 [H6 [H7 H8]]]]]]]
        end.
        split; [exact H1|]. split; [exact H2|]. split; [apply H3|].
        split; [exact H4|]. split; intros _; repeat split; assumption.
      * set (candidates := c0 :: cs) in *.
        replace (len candidates =? 0)%Z with false in Er
          by (symmetry; apply Z.eqb_neq; unfold len; simpl; lia).
        cbv iota in Er.
        destruct (harvestFiltered_facts f candidates stdin w)
          as [H1 [H2 [H3 [H4 H5]]]].
        destruct (harvestFiltered f candidates stdin w) as [[[o s1] w1] t1].
        subst r.
        unfold exitsBeforeCloning, outcome, inputLeft, worldAfter, actions in *.
        cbn [fst snd] in *. cbn [app clonedURLs].
        split; [exact H1|]. split; [intros [Hx|Hx]; [discriminate | tauto]|].
        split; [exact H3|]. split; [exact H4|].
        split; [discriminate|]. intros Hs. specialize (H5 Hs).
        injection H5 as -> -> -> ->.
        split; [reflexivity|]. split; [reflexivity|]. prints.
Qed.

(** X24. From the discovered repositories on, the run clones nothing but
    the URLs of the candidates, which are the repositories discovered or, with
    [--language], those of that language: their HTTPS URLs with [--https],
    their SSH or HTTPS URLs otherwise.  When there is no candidate the run
    ends at once without reading the input; when nothing is selected it ends
    without asking for a destination; in both cases it only prints. *)
Theorem run_clones_only_candidates {X : Collaborators} {Y : System}
  (f : flag.t) (repos : list Repository) (stdin : list string) (w : World) :
  let candidates :=
    if String.eqb (flag.filterLang f) "" then repos
    else filterByLanguage repos (flag.filterLang f) in
  let r := harvestDiscovered f repos stdin w in
  incl (clonedURLs (actions r))
       (if flag.useHTTPS f then map CloneURL candidates
        else map SSHURL candidates ++ map CloneURL candidates) /\
  (candidates = [] ->
   outcome r = Done tt /\ inputLeft r = stdin /\ worldAfter r = w /\
   onlyPrints (actions r)) /\
  (selectRepositories candidates stdin = [] ->
   outcome r = Done tt /\ worldAfter r = w /\ onlyPrints (actions r)).
Proof.
  intros candidates r.
  destruct (harvestDiscovered_facts f repos stdin w) as [_ [_ [H3 [_ [H5 H6]]]]].
  split; [exact H3|]. split; assumption.
Qed.

Lemma discoverFrom_quiet {X : Collaborators} {Y : System} (fuel : nat)
  (c : Client) (owner : string) :
  forall page allRepos stdin w,
    clonedURLs (actions (discoverFrom fuel c owner page allRepos stdin w)) = [] /\
    ~ In ActSsh (actions (discoverFrom fuel c owner page allRepos stdin w)) /\
    forall code,
      outcome (discoverFrom fuel c owner page allRepos stdin w) <> Exit code.
Proof.
  induction fuel as [|fuel IH]; intros page allRepos stdin w.
  - cbn. repeat split; auto; discriminate.
  - cbn [discoverFrom]. unfold bindP, act, retP.
    destruct (Repositories_List (accessToken c) owner page w)
      as [[[page_repos nextPage]|e] w1].
    + destruct (nextPage =? 0)%Z.
      * unfold outcome, actions. cbn. repeat split; try discriminate.
        intros [H|[]]. discriminate.
      * destruct (IH nextPage (appendPage allRepos page_repos) stdin w1)
          as [H1 [H2 H3]].
        destruct (discoverFrom fuel c owner nextPage _ stdin w1)
          as [[[o s2] w2] t2].
        unfold outcome, actions in *. cbn [fst snd app clonedURLs] in *.
        split; [exact H1|]. split; [|exact H3].
        intros [H|H]; [discriminate | contradiction].
    + unfold outcome, actions. cbn. repeat split; try discriminate.
      intros [H|[]]. discriminate.
Qed.

Lemma checkSSHSetup_quiet {X : Collaborators} {Y : System}
  (stdin : list string) (w : World) :
  clonedURLs (actions (checkSSHSetup stdin w)) = [] /\
  forall code, outcome (checkSSHSetup stdin w) = Exit code -> code = 1%Z.
Proof.
  destruct (checkSSHSetup_run stdin w) as [probes [said [-> [_ [H2 [_ Hs]]]]]].
  destruct (onlyPrints_quiet said Hs) as [_ [Hs2 _]].
  destruct (hasKey w);
    [destruct (match fst (ssh_T w) with
               | RunOk => true
               | ExitError code => (code =? 1)%Z
               | RunError _ => false
               end)|];
    unfold outcome, actions; cbn [fst snd];
    rewrite clonedURLs_app, H2; cbn [clonedURLs app]; (split; [exact Hs2|]);
    intros code; try discriminate;
    destruct (saidYes stdin); intros H; congruence.
Qed.

Lemma bindP_retP {X : Collaborators} {A B : Type} (a : A) (k : A -> Proc B)
  (stdin : list string) (w : World) :
  bindP (retP a) k stdin w = k a stdin w.
Proof. unfold bindP, retP. now destruct (k a stdin w) as [[[o s] w1] t]. Qed.

Lemma runForklift_after_discovery {X : Collaborators} {Y : System}
  (f : flag.t) (discovered : result (list Repository)) (stdin : list string)
  (w : World) :
  exitsBeforeCloning
    (match discovered with
     | Err e =>
         Fprintf_Stderr ("Error discovering repositories: " +++ e +++ nl) ;;;;
         os_Exit 1
     | Ok repos => harvestDiscovered f repos
     end stdin w).
Proof.
  destruct discovered as [repos|e].
  - apply harvestDiscovered_facts.
  - intros code H. unfold bindP, Fprintf_Stderr, os_Exit, outcome, actions in *.
    cbn in *. injection H as <-. now split.
Qed.

(** X25. [runForklift] never exits with an error once cloning has begun:
    when it exits, the code is 1 and nothing has been cloned.  The exits are
    those of the SSH check, of a failed discovery and of a [--dest] directory
    that cannot be made; a clone that fails is only reported. *)
Theorem run_exits_only_before_cloning {X : Collaborators} {Y : System}
  (f : flag.t) (fuel : nat) (args stdin : list string) (w : World) (code : Z) :
  outcome (runForklift f fuel args stdin w) = Exit code ->
  code = 1%Z /\ clonedURLs (actions (runForklift f fuel args stdin w)) = [].
Proof.
  revert code. change (exitsBeforeCloning (runForklift f fuel args stdin w)).
  unfold runForklift. apply bindP_exitsBeforeCloning.
  - destruct (flag.useHTTPS f); [reflexivity | apply checkSSHSetup_quiet].
  - destruct (flag.useHTTPS f); [discriminate | apply checkSSHSetup_quiet].
  - intros _ stdin1 w1. apply bindP_exitsBeforeCloning.
    + reflexivity.
    + discriminate.
    + intros _ stdin2 w2. apply bindP_exitsBeforeCloning.
      * apply discoverFrom_quiet.
      * intros c H. exfalso. revert H. apply discoverFrom_quiet.
      * intros discovered stdin3 w3. apply runForklift_after_discovery.
Qed.

Lemma run_exits_only_before_cloning_witness :
  outcome (runForklift (X := demoWorld) (Y := demoSystem)
             (flag.mk "" "" true false "") 5 ["o"] [ln "no"] [])
  = Exit 1 /\
  clonedURLs (actions (runForklift (X := demoWorld) (Y := demoSystem)
                         (flag.mk "" "" true false "") 5 ["o"] [ln "no"] []))
  = [].
Proof.
  split; [reflexivity|].
  apply (proj2 (run_exits_only_before_cloning (X := demoWorld) (Y := demoSystem)
                  (flag.mk "" "" true false "") 5 ["o"] [ln "no"] [] 1 eq_refl)).
Defined.

Lemma toRepository_urls (l : list github.Repository) :
  map CloneURL (map toRepository l) = map github.CloneURL l /\
  map SSHURL (map toRepository l) = map github.SSHURL l.
Proof. rewrite !map_map. split; apply map_ext; reflexivity. Qed.

(** X26. With [--https] the run does not look for SSH keys and does not
    run [ssh]: the first thing it does is announce the discovery; and every
    URL it clones is the HTTPS URL of a repository that the server listed and
    that is no fork. *)
Theorem https_run_needs_no_ssh {X : Collaborators} {Y : System}
  (f : flag.t) (fuel : nat) (args stdin : list string) (w : World) :
  flag.useHTTPS f = true ->
  let r := runForklift f fuel args stdin w in
  ~ In ActSsh (actions r) /\
  (exists t,
      actions r
      = Did (EvPrint ("Discovering repositories for " +++ nth 0 args ""
                        +++ "..." +++ nl)) :: t) /\
  incl (clonedURLs (actions r))
       (map github.CloneURL
          (filter (fun repo => negb (github.Fork repo))
                  (served fuel (NewClient (flag.token f)) (nth 0 args "") 0 w))).
Proof.
  intros Hh r. subst r.
  remember (runForklift f fuel args stdin w) as r eqn:Er.
  unfold runForklift in Er. rewrite Hh in Er. cbn [negb] in Er.
  rewrite bindP_retP in Er. unfold bindP at 1 in Er. rewrite print_run in Er.
  set (owner := nth 0 args "") in *.
  set (client := NewClient (flag.token f)) in *.
  destruct (discoverFrom_quiet fuel client owner 0 [] stdin w) as [Hc [Hs He]].
  fold (DiscoverRepositories fuel client owner) in Hc, Hs, He.
  unfold bindP at 1 in Er.
  destruct (DiscoverRepositories fuel client owner stdin w)
    as [[[[discovered|code|] s1] w1] t1] eqn:Ed;
    unfold outcome, actions in Hc, Hs, He; cbn [fst snd] in Hc, Hs, He.
  - destruct discovered as [repos|e].
    + destruct (harvestDiscovered_facts f repos s1 w1) as [_ [H2 [H3 _]]].
      rewrite Hh in H3.
      apply discoverFrom_result in Ed. destruct Ed as [Ed _]. cbn [app] in Ed.
      destruct (harvestDiscovered f repos s1 w1) as [[[o s2] w2] t2].
      subst r. unfold actions in *. cbn [fst snd app] in *.
      split; [|split; [eauto|]].
      * intros [H|H]; [discriminate|]. apply in_app_or in H. tauto.
      * cbn [clonedURLs]. rewrite clonedURLs_app, Hc. cbn [app].
        eapply incl_tran; [exact H3|].
        eapply incl_tran; [apply incl_map|].
        -- destruct (String.eqb (flag.filterLang f) "");
             [apply incl_refl | apply filterByLanguage_incl].
        -- rewrite Ed, (proj1 (toRepository_urls _)). apply incl_refl.
    + unfold bindP, Fprintf_Stderr, os_Exit in Er. subst r.
      unfold actions. cbn [fst snd app].
      split; [|split; [eauto|]].
      * intros [H|H]; [discriminate|]. apply in_app_or in H.
        destruct H as [H|[H|[]]]; [tauto | discriminate].
      * cbn [clonedURLs]. rewrite clonedURLs_app, Hc. intros x [].
  - exfalso. now apply (He code).
  - subst r. unfold actions. cbn [fst snd app]. split; [|split; [eauto|]].
    + intros [H|H]; [discriminate | tauto].
    + cbn [clonedURLs]. rewrite Hc. intros x [].
Qed.

Lemma https_run_needs_no_ssh_witness :
  clonedURLs (actions (runForklift (X := demoWorld) (Y := demoSystem)
                         (flag.mk "" "/dst" false true "") 5 ["o"]
                         [ln "all"] []))
  = ["https://github.com/o/A.git"; "https://github.com/o/N.git"] /\
  ~ In ActSsh (actions (runForklift (X := demoWorld) (Y := demoSystem)
                          (flag.mk "" "/dst" false true "") 5 ["o"]
                          [ln "all"] [])).
Proof.
  split; [reflexivity|].
  apply (proj1 (https_run_needs_no_ssh (X := demoWorld) (Y := demoSystem)
                  (flag.mk "" "/dst" false true "") 5 ["o"] [ln "all"] []
                  eq_refl)).
Defined.
